(** * cfctl: the CloudFormation stack manager ([pkg/aws], type [Stack])

    A shallow embedding of the methods of [Stack] and the properties of its
    template validation, page aggregation, event fetching and event polling.

    The remote service behind [cloudformationiface.CloudFormationAPI] is an
    environment: a run of a method is determined by the answers the service
    gives to the method's successive calls.  The [World] below holds those
    answers as a script, together with everything else a method can observe
    or change: the log of the calls made, what each non-blocking receive on
    the waiter's channel finds, the clock, and standard output. *)

From Stdlib Require Import ZArith List String Ascii Bool Lia.
From Stdlib Require Import Sorting.Permutation Sorting.Sorted.
From Stdlib Require Import Strings.Byte DecimalString.
Import ListNotations.
Local Open Scope Z_scope.

(** ** Go values *)

(** [len] of a slice and of a string (a Go string is its bytes). *)
Definition len {A : Type} (s : list A) : Z := Z.of_nat (List.length s).
Definition strlen (s : string) : Z := Z.of_nat (String.length s).

(** [time.Time], as the instant it denotes: nanoseconds from Go's zero time. *)
Module time.
Definition Time : Type := Z.
Definition IsZero (t : Time) : bool := t =? 0.
Definition Before (t u : Time) : bool := t <? u.
Definition After (t u : Time) : bool := u <? t.
End time.

(** A non-nil [error].  [err.(awserr.Error)] succeeds on the first
    constructor only; [errors.New] builds the second. *)
Inductive error : Type :=
| awserr_Error (code message : string)
| errors_New (text : string).

(** What a call of a Go function does: it returns, it panics, or the script
    of the world has no answer for a remote call it makes. *)
Inductive outcome (A : Type) : Type :=
| Returns (a : A)
| Panics
| Stuck.
Arguments Returns {A} a.
Arguments Panics {A}.
Arguments Stuck {A}.

(** [pkg/utils]: message types and [MsgFormat], which returns its message. *)
Module utils.
Inductive MessageType : Type := MessageTypeInfo | MessageTypeWarn | MessageTypeError.
Definition MsgFormat (msg : string) (msgType : MessageType) : string := msg.
End utils.

(** ** The service's records (package [cloudformation] of the SDK, imported as [cf]) *)
Module cf.
Record Stack : Type := {
  Stack_StackId : string;
  Stack_StackName : string;
  Stack_StackStatus : string }.

Record StackSummary : Type := {
  Summary_StackName : string;
  Summary_StackStatus : string }.

(** [Timestamp], [LogicalResourceId] and [ResourceStatus] are dereferenced
    without a nil check by the code and are always set by the service;
    [ResourceStatusReason] may be nil. *)
Record StackEvent : Type := {
  EventId : string;
  Timestamp : time.Time;
  LogicalResourceId : string;
  ResourceStatus : string;
  ResourceStatusReason : option string }.

Record Tag : Type := { Key : string; Value : string }.
(** [cf.Parameter] ([Parameter] is a keyword here). *)
Record Param : Type := { ParameterKey : string; ParameterValue : string }.

Record ListStacksInput : Type := {
  ListStacks_NextToken : option string;
  ListStacks_StackStatusFilter : list string }.
Record ListStacksOutput : Type := {
  StackSummaries : list StackSummary;
  ListStacksOutput_NextToken : option string }.

Record DescribeStacksInput : Type := {
  DescribeStacks_NextToken : option string;
  DescribeStacks_StackName : option string }.
(** [Stacks] is a slice of pointers: an element may be nil. *)
Record DescribeStacksOutput : Type := {
  Stacks : list (option Stack);
  DescribeStacksOutput_NextToken : option string }.

Record ValidateTemplateInput : Type := {
  Validate_TemplateBody : option string;
  Validate_TemplateURL : option string }.
Record ValidateTemplateOutput : Type := {
  Capabilities : list string }.

(** [CreateStackInput] and [UpdateStackInput] have the same fields. *)
Record ChangeStackInput : Type := {
  Change_StackName : string;
  Change_Parameters : list Param;
  Change_Capabilities : list string;
  Change_Tags : list Tag;
  Change_TemplateBody : option string;
  Change_TemplateURL : option string }.
Record ChangeStackOutput : Type := { StackId : string }.

Record DescribeStackEventsInput : Type := {
  Events_NextToken : option string;
  Events_StackName : string }.
Record DescribeStackEventsOutput : Type := {
  StackEvents : list StackEvent;
  Events_out_NextToken : option string }.
End cf.

(** ** The world *)

(** A remote call, as the client receives it. *)
Inductive Call : Type :=
| Call_ListStacks (input : cf.ListStacksInput)
| Call_DescribeStacks (input : cf.DescribeStacksInput)
| Call_ValidateTemplate (input : option cf.ValidateTemplateInput)
| Call_CreateStack (input : cf.ChangeStackInput)
| Call_UpdateStack (input : cf.ChangeStackInput)
| Call_DescribeStackEvents (input : cf.DescribeStackEventsInput).

(** The service's answer to one call: an error, or the output of the
    operation called. *)
Inductive Reply : Type :=
| Reply_error (err : error)
| Reply_ListStacks (output : cf.ListStacksOutput)
| Reply_DescribeStacks (output : cf.DescribeStacksOutput)
| Reply_ValidateTemplate (output : cf.ValidateTemplateOutput)
| Reply_CreateStack (output : cf.ChangeStackOutput)
| Reply_UpdateStack (output : cf.ChangeStackOutput)
| Reply_DescribeStackEvents (output : cf.DescribeStackEventsOutput).

Record World : Type := mkWorld {
  (** the answers to the remote calls still to come, next one first *)
  replies : list Reply;
  (** the remote calls made so far, oldest first *)
  requests : list Call;
  (** what each non-blocking receive on the waiter's channel finds, next one
      first: [None] when the waiter has not sent yet ([default:] is taken),
      [Some err] when it sends [err] *)
  signals : list (option (option error));
  (** [time.Now()] *)
  clock : time.Time;
  (** the lines written to standard output, oldest first *)
  stdout : list string;
  (** ghost: the events whose line was written, oldest first *)
  shown : list cf.StackEvent }.

Definition set_replies (rs : list Reply) (w : World) : World :=
  mkWorld rs (requests w) (signals w) (clock w) (stdout w) (shown w).
Definition log_request (c : Call) (w : World) : World :=
  mkWorld (replies w) (requests w ++ [c]) (signals w) (clock w) (stdout w) (shown w).
Definition set_signals (ss : list (option (option error))) (w : World) : World :=
  mkWorld (replies w) (requests w) ss (clock w) (stdout w) (shown w).
Definition write_line (e : cf.StackEvent) (line : string) (w : World) : World :=
  mkWorld (replies w) (requests w) (signals w) (clock w) (stdout w ++ [line]) (shown w ++ [e]).

(** Go code running in a world. *)
Definition M (A : Type) : Type := World -> outcome A * World.

Definition ret {A : Type} (a : A) : M A := fun w => (Returns a, w).
Definition panic {A : Type} : M A := fun w => (Panics, w).
Definition stuck {A : Type} : M A := fun w => (Stuck, w).
Definition bind {A B : Type} (m : M A) (k : A -> M B) : M B :=
  fun w =>
    match m w with
    | (Returns a, w') => k a w'
    | (Panics, w') => (Panics, w')
    | (Stuck, w') => (Stuck, w')
    end.

Declare Scope go_scope.
Delimit Scope go_scope with go.
Notation "x <- m ;; k" := (bind m (fun x => k))
  (at level 61, m at next level, right associativity) : go_scope.
Notation "' p <- m ;; k" := (bind m (fun x => match x with p => k end))
  (at level 61, p pattern, m at next level, right associativity) : go_scope.
Local Open Scope go_scope.

(** One remote call: the request is logged and the next answer of the script
    is consumed. *)
Definition remote (c : Call) : M Reply :=
  fun w =>
    match replies w with
    | [] => (Stuck, log_request c w)
    | r :: rs => (Returns r, set_replies rs (log_request c w))
    end.

(** The methods of [s.Client], each returning Go's pair [(output, err)]. *)
Module Client.
Definition ListStacks (input : cf.ListStacksInput)
  : M (option cf.ListStacksOutput * option error) :=
  r <- remote (Call_ListStacks input) ;;
  match r with
  | Reply_error err => ret (None, Some err)
  | Reply_ListStacks output => ret (Some output, None)
  | _ => stuck
  end.

Definition DescribeStacks (input : cf.DescribeStacksInput)
  : M (option cf.DescribeStacksOutput * option error) :=
  r <- remote (Call_DescribeStacks input) ;;
  match r with
  | Reply_error err => ret (None, Some err)
  | Reply_DescribeStacks output => ret (Some output, None)
  | _ => stuck
  end.

Definition ValidateTemplate (input : option cf.ValidateTemplateInput)
  : M (option cf.ValidateTemplateOutput * option error) :=
  r <- remote (Call_ValidateTemplate input) ;;
  match r with
  | Reply_error err => ret (None, Some err)
  | Reply_ValidateTemplate output => ret (Some output, None)
  | _ => stuck
  end.

Definition CreateStack (input : cf.ChangeStackInput)
  : M (option cf.ChangeStackOutput * option error) :=
  r <- remote (Call_CreateStack input) ;;
  match r with
  | Reply_error err => ret (None, Some err)
  | Reply_CreateStack output => ret (Some output, None)
  | _ => stuck
  end.

Definition UpdateStack (input : cf.ChangeStackInput)
  : M (option cf.ChangeStackOutput * option error) :=
  r <- remote (Call_UpdateStack input) ;;
  match r with
  | Reply_error err => ret (None, Some err)
  | Reply_UpdateStack output => ret (Some output, None)
  | _ => stuck
  end.

Definition DescribeStackEvents (input : cf.DescribeStackEventsInput)
  : M (option cf.DescribeStackEventsOutput * option error) :=
  r <- remote (Call_DescribeStackEvents input) ;;
  match r with
  | Reply_error err => ret (None, Some err)
  | Reply_DescribeStackEvents output => ret (Some output, None)
  | _ => stuck
  end.
End Client.

(** ** [sort.Slice] *)

(** What [sort.Slice] asks of [less]: a strict weak ordering. *)
Record StrictWeakOrder {A : Type} (less : A -> A -> bool) : Prop := {
  swo_irrefl : forall a, less a a = false;
  swo_trans : forall a b c, less a b = true -> less b c = true -> less a c = true;
  swo_incomp : forall a b c, less a b = false -> less b c = false -> less a c = false }.

(** [sort.Slice] is the Go library's: any function that rearranges the slice
    so that no element is [less] than one before it.  It need not be stable,
    and nothing below depends on how it orders elements that compare equal. *)
Class SliceSorter : Type := {
  sort_Slice : forall {A : Type}, (A -> A -> bool) -> list A -> list A;
  sort_Slice_perm :
    forall (A : Type) (less : A -> A -> bool) (x : list A),
      Permutation x (sort_Slice less x);
  sort_Slice_sorted :
    forall (A : Type) (less : A -> A -> bool) (x : list A),
      StrictWeakOrder less ->
      StronglySorted (fun a b => less b a = false) (sort_Slice less x) }.

(** One such function: insertion sort. *)
Fixpoint insert_by {A : Type} (less : A -> A -> bool) (a : A) (x : list A) : list A :=
  match x with
  | [] => [a]
  | b :: x' => if less a b then a :: b :: x' else b :: insert_by less a x'
  end.

Definition insertion_sort {A : Type} (less : A -> A -> bool) (x : list A) : list A :=
  fold_right (insert_by less) [] x.

Lemma insert_by_perm {A : Type} (less : A -> A -> bool) (a : A) (x : list A) :
  Permutation (a :: x) (insert_by less a x).
Proof.
  induction x as [|b x IH]; simpl.
  - apply Permutation_refl.
  - destruct (less a b).
    + apply Permutation_refl.
    + eapply perm_trans; [apply perm_swap|].
      now apply perm_skip.
Qed.

Lemma insertion_sort_perm {A : Type} (less : A -> A -> bool) (x : list A) :
  Permutation x (insertion_sort less x).
Proof.
  induction x as [|a x IH]; simpl.
  - constructor.
  - eapply perm_trans; [apply perm_skip, IH|apply insert_by_perm].
Qed.

Lemma insert_by_sorted {A : Type} (less : A -> A -> bool) (a : A) (x : list A) :
  StrictWeakOrder less ->
  StronglySorted (fun u v => less v u = false) x ->
  StronglySorted (fun u v => less v u = false) (insert_by less a x).
Proof.
  intros O. induction x as [|b x IH]; intros S; simpl.
  - repeat constructor.
  - inversion S as [|? ? Sx Fb]; subst.
    destruct (less a b) eqn:E.
    + constructor; [exact S|].
      assert (Hba : less b a = false).
      { destruct (less b a) eqn:E'; [|reflexivity].
        rewrite <- (swo_irrefl less O a). symmetry.
        now apply (swo_trans less O a b a). }
      constructor; [exact Hba|].
      rewrite Forall_forall in Fb |- *. intros y Hy.
      destruct (less y a) eqn:E'; [|reflexivity].
      rewrite <- (Fb y Hy). symmetry.
      now apply (swo_trans less O y a b).
    + constructor; [now apply IH|].
      apply (Permutation_Forall (insert_by_perm less a x)).
      now constructor.
Qed.

Lemma insertion_sort_sorted {A : Type} (less : A -> A -> bool) (x : list A) :
  StrictWeakOrder less ->
  StronglySorted (fun u v => less v u = false) (insertion_sort less x).
Proof.
  intros O. induction x as [|a x IH]; simpl.
  - constructor.
  - now apply insert_by_sorted.
Qed.

Definition insertion_sorter : SliceSorter := {|
  sort_Slice := @insertion_sort;
  sort_Slice_perm := @insertion_sort_perm;
  sort_Slice_sorted := @insertion_sort_sorted |}.

(** ** The methods of [Stack] *)

Definition maxTemplateLength : Z := 51200.

(** Waiter types. *)
Definition StackWaiterTypeCreate : string := "create".
Definition StackWaiterTypeUpdate : string := "update".
Definition StackWaiterTypeDelete : string := "delete".

(** A [map[string]string], as its entries in the order in which this run's
    [range] visits them (Go leaves that order unspecified). *)
Definition gomap : Type := list (string * string).

(** [fmt.Sprintf("%d", n)]. *)
Definition Sprintf_d (n : Z) : string := NilZero.string_of_int (Z.to_int n).

Definition tab : string := String (ascii_of_nat 9) EmptyString.

Section Stack.
(** The Go library's [sort.Slice] and [Time.Format(time.RFC3339)], and
    [tagPkgStamp], which [pkg/aws] defines in another file. *)
Context {sorter : SliceSorter}.
Variable Format_RFC3339 : time.Time -> string.
Variable tagPkgStamp : gomap -> gomap.

(** List all stacks: the loop of [ListStacks], from [nextToken] and the
    summaries aggregated so far. *)
Fixpoint ListStacks_loop (fuel : nat) (statusFilter : list string)
    (nextToken : option string) (stackSummary : list cf.StackSummary)
  : M (list cf.StackSummary * option error) :=
  match fuel with
  | O => stuck
  | S fuel' =>
    let input :=
      {| cf.ListStacks_NextToken := nextToken;
         cf.ListStacks_StackStatusFilter :=
           if 0 <? len statusFilter then statusFilter else [] |} in
    '(output, err) <- Client.ListStacks input ;;
    match err, output with
    | Some err, _ => ret (stackSummary, Some err)
    | None, None => panic
    | None, Some output =>
      let stackSummary :=
        if 0 <? len (cf.StackSummaries output)
        then stackSummary ++ cf.StackSummaries output
        else stackSummary in
      match cf.ListStacksOutput_NextToken output with
      | None => ret (stackSummary, None)
      | Some tok => ListStacks_loop fuel' statusFilter (Some tok) stackSummary
      end
    end
  end.

(** Every turn of the loop consumes one answer of the script, so the
    script's length bounds the turns. *)
Definition ListStacks (format : string) (statusFilter : list string)
  : M (list cf.StackSummary * option error) :=
  fun w => ListStacks_loop (S (List.length (replies w))) statusFilter None [] w.

(** Validate cloudformation template.  The second test below is the early
    return inside the branch [len(tpl) > 0]. *)
Definition ValidateTemplate (tpl : list byte) (url : string)
  : M (option cf.ValidateTemplateOutput * option error) :=
  let input : option cf.ValidateTemplateInput := None in
  let output : option cf.ValidateTemplateOutput := None in
  if (len tpl =? 0) && (strlen url =? 0) then
    ret (output,
         Some (errors_New (utils.MsgFormat
           "Missing cloudformation template or template URLs" utils.MessageTypeError)))
  else if (0 <? len tpl) && (maxTemplateLength <? len tpl) then
    ret (output,
         Some (errors_New (utils.MsgFormat
           ("Exceeded maximum template size of " ++ Sprintf_d maxTemplateLength ++ " bytes")
           utils.MessageTypeError)))
  else
    let input :=
      if 0 <? len tpl
      then Some {| cf.Validate_TemplateBody := Some (string_of_list_byte tpl);
                   cf.Validate_TemplateURL := None |}
      else input in
    let input :=
      if (len tpl =? 0) && (0 <? strlen url)
      then Some {| cf.Validate_TemplateBody := None;
                   cf.Validate_TemplateURL := Some url |}
      else input in
    Client.ValidateTemplate input.

Definition TagSlice (tags : gomap) : list cf.Tag :=
  map (fun kv => {| cf.Key := fst kv; cf.Value := snd kv |}) tags.

Definition ParamSlice (params : gomap) : list cf.Param :=
  map (fun kv => {| cf.ParameterKey := fst kv; cf.ParameterValue := snd kv |}) params.

(** The input that [CreateStack] and [UpdateStack] build once the template
    is validated. *)
Definition change_input (name : string) (params tags : gomap)
    (capabilities : list string) (tpl : list byte) (url : string)
  : cf.ChangeStackInput :=
  {| cf.Change_StackName := name;
     cf.Change_Parameters := ParamSlice params;
     cf.Change_Capabilities := capabilities;
     cf.Change_Tags := TagSlice tags;
     cf.Change_TemplateBody :=
       if 0 <? len tpl then Some (string_of_list_byte tpl) else None;
     cf.Change_TemplateURL :=
       if 0 <? len tpl then None else Some url |}.

Definition CreateStack (name : string) (params tags : gomap)
    (tpl : list byte) (url : string)
  : M (option cf.ChangeStackOutput * option error) :=
  let stackOutput : option cf.ChangeStackOutput := None in
  '(valid, err) <- ValidateTemplate tpl url ;;
  match err, valid with
  | Some err, _ => ret (stackOutput, Some err)
  | None, None => panic
  | None, Some valid =>
    let tags := tagPkgStamp tags in
    Client.CreateStack
      (change_input name params tags (cf.Capabilities valid) tpl url)
  end.

Definition UpdateStack (name : string) (params tags : gomap)
    (tpl : list byte) (url : string)
  : M (option cf.ChangeStackOutput * option error) :=
  let output : option cf.ChangeStackOutput := None in
  '(Valid, err) <- ValidateTemplate tpl url ;;
  match err, Valid with
  | Some err, _ => ret (output, Some err)
  | None, None => panic
  | None, Some Valid =>
    let tags := tagPkgStamp tags in
    Client.UpdateStack
      (change_input name params tags (cf.Capabilities Valid) tpl url)
  end.

(** Describe a stack by a given name.  [out.Stacks[0]] panics on an empty
    slice. *)
Definition DescribeStack (stackName : string) : M (option cf.Stack * option error) :=
  if strlen stackName <=? 0 then
    ret (None, Some (errors_New (utils.MsgFormat "Missing stack name." utils.MessageTypeError)))
  else
    let input :=
      {| cf.DescribeStacks_NextToken := None;
         cf.DescribeStacks_StackName := Some stackName |} in
    '(out, err) <- Client.DescribeStacks input ;;
    match err, out with
    | Some err, _ => ret (None, Some err)
    | None, None => panic
    | None, Some out =>
      match cf.Stacks out with
      | [] => panic
      | stack :: _ => ret (stack, None)
      end
    end.

(** If stack exists. *)
Definition Exist (stackName : string) : M bool :=
  '(stacks, err) <- DescribeStack stackName ;;
  match err, stacks with
  | Some _, _ => ret false
  | None, None => ret false
  | None, Some _ => ret true
  end.

(** Describe all stacks. *)
Fixpoint DescribeStacks_loop (fuel : nat) (nextToken : option string)
    (out : list (option cf.Stack))
  : M (list (option cf.Stack) * option error) :=
  match fuel with
  | O => stuck
  | S fuel' =>
    let input :=
      {| cf.DescribeStacks_NextToken := nextToken;
         cf.DescribeStacks_StackName := None |} in
    '(o, err) <- Client.DescribeStacks input ;;
    match err, o with
    | Some err, _ => ret (out, Some err)
    | None, None => panic
    | None, Some o =>
      let out := if 0 <? len (cf.Stacks o) then out ++ cf.Stacks o else out in
      match cf.DescribeStacksOutput_NextToken o with
      | None => ret (out, None)
      | Some tok => DescribeStacks_loop fuel' (Some tok) out
      end
    end
  end.

Definition DescribeStacks : M (list (option cf.Stack) * option error) :=
  fun w => DescribeStacks_loop (S (List.length (replies w))) None [] w.

(** The events of one page that [GetStackEvents] records: with a timestamp
    given, an event that [timestamp] is after is skipped. *)
Definition record_events (timestamp : time.Time) (result : list cf.StackEvent)
    (page : list cf.StackEvent) : list cf.StackEvent :=
  fold_left
    (fun result se =>
       if negb (time.IsZero timestamp) && time.After timestamp (cf.Timestamp se)
       then result
       else result ++ [se])
    page result.

(** The comparison handed to [sort.Slice]. *)
Definition less_Timestamp (a b : cf.StackEvent) : bool :=
  time.Before (cf.Timestamp a) (cf.Timestamp b).

(** Get stack events: the loop of [GetStackEvents] and the sort after it. *)
Fixpoint GetStackEvents_loop (fuel : nat) (stackName : string)
    (timestamp : time.Time) (input : cf.DescribeStackEventsInput)
    (result : list cf.StackEvent)
  : M (list cf.StackEvent * option error) :=
  match fuel with
  | O => stuck
  | S fuel' =>
    '(output, err) <- Client.DescribeStackEvents input ;;
    match err, output with
    | Some err, _ => ret ([], Some err)
    | None, None => panic
    | None, Some output =>
      let result := record_events timestamp result (cf.StackEvents output) in
      match cf.Events_out_NextToken output with
      | None => ret (sort_Slice less_Timestamp result, None)
      | Some tok =>
        GetStackEvents_loop fuel' stackName timestamp
          {| cf.Events_NextToken := Some tok; cf.Events_StackName := stackName |}
          result
      end
    end
  end.

Definition GetStackEvents (stackName : string) (timestamp : time.Time)
  : M (list cf.StackEvent * option error) :=
  fun w =>
    GetStackEvents_loop (S (List.length (replies w))) stackName timestamp
      {| cf.Events_NextToken := None; cf.Events_StackName := stackName |} [] w.

(** [utils.InfoPrint] of the line of an event. *)
Definition InfoPrint (evnt : cf.StackEvent) (outStr : string) : M unit :=
  fun w => (Returns tt, write_line evnt outStr w).

(** The line [PollStackEvents] formats for an event. *)
Definition event_line (stackName waiterType : string) (evnt : cf.StackEvent) : string :=
  let outStr :=
    ("[ stack | " ++ waiterType ++ " ] " ++ stackName ++ tab
       ++ Format_RFC3339 (cf.Timestamp evnt) ++ tab
       ++ cf.LogicalResourceId evnt ++ tab
       ++ cf.ResourceStatus evnt)%string in
  match cf.ResourceStatusReason evnt with
  | Some reason => (outStr ++ tab ++ reason)%string
  | None => outStr
  end.

(** The inner loop of [PollStackEvents] over a fetched batch: it prints the
    events that [timestamp] is before and returns [tmpTime]. *)
Fixpoint print_events (stackName waiterType : string) (timestamp : time.Time)
    (events : list cf.StackEvent) (tmpTime : time.Time) : M time.Time :=
  match events with
  | [] => ret tmpTime
  | evnt :: events' =>
    if time.Before timestamp (cf.Timestamp evnt) then
      _ <- InfoPrint evnt (event_line stackName waiterType evnt) ;;
      let tmpTime :=
        if time.Before tmpTime (cf.Timestamp evnt) then cf.Timestamp evnt else tmpTime in
      print_events stackName waiterType timestamp events' tmpTime
    else
      print_events stackName waiterType timestamp events' tmpTime
  end.

(** [awsErr, ok := err.(awserr.Error)]: [awsErr] is nil when [ok] is false. *)
Definition as_awserr (err : error) : option (string * string) * bool :=
  match err with
  | awserr_Error code message => (Some (code, message), true)
  | errors_New _ => (None, false)
  end.

(** [awsErr.Code()]: a method call on a nil interface value panics. *)
Definition Code (awsErr : option (string * string)) : M string :=
  match awsErr with
  | Some (code, _) => ret code
  | None => panic
  end.

(** [select] on the waiter's channel, with its [default:] case. *)
Definition select_stop : M (option (option error)) :=
  fun w =>
    match signals w with
    | [] => (Stuck, w)
    | s :: ss => (Returns s, set_signals ss w)
    end.

Definition Sleep : M unit := ret tt.
Definition Now : M time.Time := fun w => (Returns (clock w), w).

(** One turn of the loop of [PollStackEvents], from the current
    [timestamp]: the timestamp after the turn, and [Some err] when the
    turn returns [err] from the function. *)
Definition PollStackEvents_turn (stackName waiterType : string)
    (timestamp : time.Time) : M (time.Time * option (option error)) :=
  '(events, err) <- GetStackEvents stackName timestamp ;;
  '(timestamp, returned) <-
    match err with
    | Some err =>
      let '(awsErr, ok) := as_awserr err in
      if negb (waiterType =? StackWaiterTypeDelete)%string || negb ok then
        code <- Code awsErr ;;
        if negb (code =? "ValidationError")%string
        then ret (timestamp, Some (Some err))
        else ret (timestamp, None)
      else ret (timestamp, None)
    | None =>
      if 0 <? len events then
        tmpTime <- print_events stackName waiterType timestamp events timestamp ;;
        ret (tmpTime, None)
      else ret (timestamp, None)
    end ;;
  match returned with
  | Some err => ret (timestamp, Some err)
  | None =>
    stop <- select_stop ;;
    match stop with
    | Some err => ret (timestamp, Some err)
    | None => _ <- Sleep ;; ret (timestamp, None)
    end
  end.

Fixpoint PollStackEvents_loop (fuel : nat) (stackName waiterType : string)
    (timestamp : time.Time) : M (option error) :=
  match fuel with
  | O => stuck
  | S fuel' =>
    '(timestamp, returned) <- PollStackEvents_turn stackName waiterType timestamp ;;
    match returned with
    | Some err => ret err
    | None => PollStackEvents_loop fuel' stackName waiterType timestamp
    end
  end.

(** Poll stack events and print them out.  The waiter goroutine is the
    world's [signals]; every turn that goes on consumes one of them. *)
Definition PollStackEvents (stackName waiterType : string) : M (option error) :=
  fun w =>
    (timestamp <- Now ;;
     PollStackEvents_loop (S (List.length (signals w))) stackName waiterType timestamp) w.

(** ** The vocabulary of the properties *)

(** What the statements below are written with: the requests and errors of
    the template checks, scripts of pages, the order of events, and the
    worlds of the concrete runs. *)

Definition body_input (tpl : list byte) : option cf.ValidateTemplateInput :=
  Some {| cf.Validate_TemplateBody := Some (string_of_list_byte tpl);
          cf.Validate_TemplateURL := None |}.

Definition err_missing_template : option error :=
  Some (errors_New "Missing cloudformation template or template URLs").
Definition err_template_size : option error :=
  Some (errors_New "Exceeded maximum template size of 51200 bytes").

(** The first remote call a run makes from [w], if it makes one. *)
Definition first_request {A : Type} (m : M A) (w : World) (c : Call) : Prop :=
  exists more, requests (snd (m w)) = requests w ++ c :: more.

Definition describe_request (stackName : string) : Call :=
  Call_DescribeStacks
    {| cf.DescribeStacks_NextToken := None;
       cf.DescribeStacks_StackName := Some stackName |}.

(** A script of pages: every page but the last carries a continuation
    token. *)
Definition ListStacks_page (p : list cf.StackSummary * string) : Reply :=
  Reply_ListStacks
    {| cf.StackSummaries := fst p; cf.ListStacksOutput_NextToken := Some (snd p) |}.
Definition ListStacks_last (items : list cf.StackSummary) : Reply :=
  Reply_ListStacks
    {| cf.StackSummaries := items; cf.ListStacksOutput_NextToken := None |}.

Definition DescribeStacks_page (p : list (option cf.Stack) * string) : Reply :=
  Reply_DescribeStacks
    {| cf.Stacks := fst p; cf.DescribeStacksOutput_NextToken := Some (snd p) |}.
Definition DescribeStacks_last (items : list (option cf.Stack)) : Reply :=
  Reply_DescribeStacks
    {| cf.Stacks := items; cf.DescribeStacksOutput_NextToken := None |}.

Definition Events_page (p : list cf.StackEvent * string) : Reply :=
  Reply_DescribeStackEvents
    {| cf.StackEvents := fst p; cf.Events_out_NextToken := Some (snd p) |}.
Definition Events_last (items : list cf.StackEvent) : Reply :=
  Reply_DescribeStackEvents
    {| cf.StackEvents := items; cf.Events_out_NextToken := None |}.

(** The items of a list of pages, in page order. *)
Definition items_of {A : Type} (pages : list (list A * string)) : list A :=
  List.concat (map fst pages).

(** The test by which [GetStackEvents] records an event. *)
Definition retained (timestamp : time.Time) (se : cf.StackEvent) : bool :=
  negb (negb (time.IsZero timestamp) && time.After timestamp (cf.Timestamp se)).

(** Ascending and strictly ascending by timestamp. *)
Definition ascending (events : list cf.StackEvent) : Prop :=
  StronglySorted (fun a b => cf.Timestamp a <= cf.Timestamp b) events.
Definition strictly_ascending (events : list cf.StackEvent) : Prop :=
  StronglySorted (fun a b => cf.Timestamp a < cf.Timestamp b) events.

(** The listings that the successive fetches deliver from a script: a
    fetch takes pages up to the first one without a continuation token,
    and an error ends it without a listing.  [cur] holds the events of the
    fetch under way. *)
Fixpoint listings (cur : list cf.StackEvent) (rs : list Reply)
  : list (list cf.StackEvent) :=
  match rs with
  | [] => []
  | Reply_DescribeStackEvents output :: rs' =>
    match cf.Events_out_NextToken output with
    | None => (cur ++ cf.StackEvents output) :: listings [] rs'
    | Some _ => listings (cur ++ cf.StackEvents output) rs'
    end
  | _ :: rs' => listings [] rs'
  end.

(** The events of a fetched batch that a turn prints, and the timestamp it
    ends with: the latest of [timestamp] and the printed events'. *)
Definition printable (timestamp : time.Time) (events : list cf.StackEvent)
  : list cf.StackEvent :=
  filter (fun evnt => time.Before timestamp (cf.Timestamp evnt)) events.

Definition latest (timestamp : time.Time) (batch : list cf.StackEvent) : time.Time :=
  fold_right (fun evnt t => Z.max (cf.Timestamp evnt) t) timestamp batch.

Definition write_lines (stackName waiterType : string) (batch : list cf.StackEvent)
    (w : World) : World :=
  fold_left (fun w evnt => write_line evnt (event_line stackName waiterType evnt) w)
    batch w.

(** The end of a turn: unless the turn has returned already, one receive
    on the waiter's channel. *)
Definition end_turn (timestamp : time.Time) (returned : option (option error))
  : M (time.Time * option (option error)) :=
  match returned with
  | Some err => ret (timestamp, Some err)
  | None =>
    stop <- select_stop ;;
    match stop with
    | Some err => ret (timestamp, Some err)
    | None => _ <- Sleep ;; ret (timestamp, None)
    end
  end.

Definition events_request (stackName : string) : Call :=
  Call_DescribeStackEvents
    {| cf.Events_NextToken := None; cf.Events_StackName := stackName |}.

(** A world with nothing printed and no call made yet, at instant 100. *)
Definition world (rs : list Reply) (ss : list (option (option error))) : World :=
  mkWorld rs [] ss 100 [] [].

Definition err_no_stack : error :=
  awserr_Error "ValidationError" "Stack with id demo does not exist".
Definition err_throttling : error := awserr_Error "Throttling" "Rate exceeded".
Definition err_plain : error := errors_New "connection reset".

Definition event_at (id : string) (t : time.Time) : cf.StackEvent :=
  {| cf.EventId := id; cf.Timestamp := t; cf.LogicalResourceId := "Bucket";
     cf.ResourceStatus := "CREATE_IN_PROGRESS"; cf.ResourceStatusReason := None |}.

(** The concrete runs use insertion sort for [sort.Slice], print an instant
    as its number, and let [tagPkgStamp] add one tag. *)
Definition Format_number : time.Time -> string := Sprintf_d.
Definition stamp_tag (tags : gomap) : gomap := ("managed-by", "cfctl")%string :: tags.

Definition template_of_size (n : Z) : list byte := repeat "a"%byte (Z.to_nat n).

Definition tiny_template : list byte := ["{"%byte; "}"%byte].
Definition template_url : string := "https://s3.amazonaws.com/bucket/stack.yaml".

Definition no_stacks : cf.DescribeStacksOutput :=
  {| cf.Stacks := []; cf.DescribeStacksOutput_NextToken := None |}.

(** Three events in two pages, the later ones first. *)
Definition e10 : cf.StackEvent := event_at "e10" 10.
Definition e20 : cf.StackEvent := event_at "e20" 20.
Definition e30 : cf.StackEvent := event_at "e30" 30.
Definition pages_descending : list (list cf.StackEvent * string) := [([e30; e20], "t1"%string)].
Definition world_descending : World :=
  world (map Events_page pages_descending ++ [Events_last [e10]]) [Some None].

(** Five stack summaries in pages of two, two and one. *)
Definition summary (name : string) : cf.StackSummary :=
  {| cf.Summary_StackName := name; cf.Summary_StackStatus := "CREATE_COMPLETE" |}.
Definition pages_2_2 : list (list cf.StackSummary * string) :=
  [([summary "a"; summary "b"], "t1"%string); ([summary "c"; summary "d"], "t2"%string)].
Definition world_2_2_1 : World :=
  world (map ListStacks_page pages_2_2 ++ [ListStacks_last [summary "e"]]) [].

(** The events that a script delivers, over all its pages. *)
Definition delivered (rs : list Reply) : list cf.StackEvent :=
  flat_map
    (fun r =>
       match r with
       | Reply_DescribeStackEvents output => cf.StackEvents output
       | _ => []
       end)
    rs.

(** Two fetches; the second delivers the whole log again, with one more
    event. *)
Definition e200 : cf.StackEvent := event_at "e200" 200.
Definition e300 : cf.StackEvent := event_at "e300" 300.
Definition world_two_fetches : World :=
  world [Events_last [e200]; Events_last [e300; e200]] [None; Some None].

(** One fetch whose two pages both list the same event. *)
Definition world_duplicate : World :=
  world [Events_page ([e200], "t1"%string); Events_last [e200]] [Some None].

(** Unfolds the client's methods down to the script. *)
Ltac run_client :=
  unfold Client.ListStacks, Client.DescribeStacks, Client.ValidateTemplate,
    Client.CreateStack, Client.UpdateStack, Client.DescribeStackEvents,
    bind, remote, ret, panic, stuck in *; simpl in *.

(** ** The rest of the package and its callers *)

(** [fmt.Println] of a line that is no event's. *)
Definition print_line (line : string) (w : World) : World :=
  mkWorld (replies w) (requests w) (signals w) (clock w) (stdout w ++ [line]) (shown w).

Definition Println (line : string) : M unit :=
  fun w => (Returns tt, print_line line w).

(** The values that the callers hand to [utils.Print] as [interface{}]. *)
Inductive object : Type :=
| obj_string (s : string)
| obj_error (err : error)
| obj_stack (stack : option cf.Stack)
| obj_stacks (stacks : list (option cf.Stack)).

(** Print format types. *)
Definition FormatYaml : string := "yaml".
Definition FormatJson : string := "json".
Definition FormatCmd : string := "cmd".

(** The marshalers of the yaml and json libraries, which may fail, and what
    [fmt.Sprintf("%s", v)] makes of a value that is not a string. *)
Variable yaml_Marshal : object -> string * option error.
Variable json_MarshalIndent : object -> string * option error.
Variable Sprintf_value : object -> string.

Definition Sprintf_s (input : object) : string :=
  match input with
  | obj_string s => s
  | _ => Sprintf_value input
  end.

Definition toYamlStr (input : object) : string * option error := yaml_Marshal input.
Definition toJsonStr (input : object) : string * option error := json_MarshalIndent input.
Definition toDefault (input : object) : string * option error := (Sprintf_s input, None).

(** stdout string conversion factory. *)
Definition StdoutStrFactory (format : string) : object -> string * option error :=
  if (format =? FormatYaml)%string then toYamlStr
  else if (format =? FormatJson)%string then toJsonStr
  else if (format =? FormatCmd)%string then toDefault
  else toDefault.

(** The loop of [utils.Print] over its objects. *)
Fixpoint Print_each (fn : object -> string * option error) (s : list object)
  : M (option error) :=
  match s with
  | [] => ret None
  | ss :: s' =>
    let '(out, err) := fn ss in
    match err with
    | Some err => ret (Some err)
    | None => _ <- Println out ;; Print_each fn s'
    end
  end.

(** [utils.Print]: print given interface to given format. *)
Definition utils_Print (format : string) (s : list object) : M (option error) :=
  if len s =? 0 then
    ret (Some (errors_New (utils.MsgFormat
      "Printing output error: No object given" utils.MessageTypeError)))
  else
    Print_each (StdoutStrFactory format) s.

(** [utils.InfoPrint]: generic print info. *)
Definition utils_InfoPrint (s : list object) : M (option error) :=
  utils_Print FormatCmd s.

(** [cmd.stackGet]: get stacks. *)
Definition stackGet (format stackName : string) : M (option error) :=
  if 0 <? strlen stackName then
    found <- Exist stackName ;;
    if negb found then
      ret (Some (errors_New (utils.MsgFormat
        ("Failed to find stack " ++ stackName) utils.MessageTypeError)))
    else
      '(out, err) <- DescribeStack stackName ;;
      match err with
      | Some err => ret (Some err)
      | None =>
        err <- utils_Print format [obj_stack out] ;;
        match err with
        | Some err => ret (Some err)
        | None => ret None
        end
      end
  else
    '(out, err) <- DescribeStacks ;;
    match err with
    | Some err => ret (Some err)
    | None =>
      err <- utils_Print format [obj_stacks out] ;;
      match err with
      | Some err => ret (Some err)
      | None => ret None
      end
    end.

(** *** Deleting a stack, drift and resources *)

(** These methods make at most one remote call each.  The method of the
    client that each one calls is a function of the input here, and a method
    of [Stack] gives back, beside what it returns, the inputs it has sent. *)
Record DeleteStackInput : Type := {
  Delete_StackName : string;
  Delete_RetainResources : list string }.
Record DetectStackDriftInput : Type := {
  Detect_StackName : string;
  Detect_LogicalResourceIds : list string }.
Record DetectStackDriftOutput : Type := {
  StackDriftDetectionId : option string }.
Record DescribeStackResourceDriftsInput : Type := {
  Drifts_StackName : string;
  Drifts_StatusFilters : list string }.
Record StackResourceDrift : Type := {
  Drift_LogicalResourceId : string;
  Drift_StackResourceDriftStatus : string }.
Record DescribeStackResourceDriftsOutput : Type := {
  StackResourceDrifts : list StackResourceDrift }.
Record DescribeStackResourcesInput : Type := {
  Resources_StackName : string }.
Record StackResource : Type := {
  Resource_LogicalResourceId : string;
  Resource_ResourceStatus : string }.
Record DescribeStackResourcesOutput : Type := {
  StackResources : list StackResource }.

Variable Client_DeleteStack : DeleteStackInput -> option unit * option error.
Variable Client_DetectStackDrift :
  DetectStackDriftInput -> option DetectStackDriftOutput * option error.
Variable Client_DescribeStackResourceDrifts :
  DescribeStackResourceDriftsInput
  -> option DescribeStackResourceDriftsOutput * option error.
Variable Client_DescribeStackResources :
  DescribeStackResourcesInput -> option DescribeStackResourcesOutput * option error.

Definition err_missing_name : option error :=
  Some (errors_New (utils.MsgFormat "Missing stack name." utils.MessageTypeError)).

(** Delete a stack. *)
Definition DeleteStack (stackName : string) (retainResc : list string)
  : outcome (option unit * option error) * list DeleteStackInput :=
  let input :=
    {| Delete_StackName := stackName;
       Delete_RetainResources := if 0 <? len retainResc then retainResc else [] |} in
  (Returns (Client_DeleteStack input), [input]).

(** Kick off a stack drift detection process. *)
Definition DetectStackDrift (stackName : string) (resourceIds : list string)
  : outcome (string * option error) * list DetectStackDriftInput :=
  let detectionId : string := EmptyString in
  if strlen stackName =? 0 then (Returns (detectionId, err_missing_name), [])
  else
    let input :=
      {| Detect_StackName := stackName;
         Detect_LogicalResourceIds :=
           if 0 <? len resourceIds then resourceIds else [] |} in
    let '(output, err) := Client_DetectStackDrift input in
    (match err, output with
     | Some err, _ => Returns (detectionId, Some err)
     | None, None => Panics
     | None, Some output =>
       match StackDriftDetectionId output with
       | None => Panics
       | Some id => Returns (id, None)
       end
     end,
     [input]).

(** Detailing the stack drift at resources. *)
Definition DescribeStackResourceDrifts (stackName : string) (status : list string)
  : outcome (list StackResourceDrift * option error)
    * list DescribeStackResourceDriftsInput :=
  if strlen stackName =? 0 then (Returns ([], err_missing_name), [])
  else
    let input :=
      {| Drifts_StackName := stackName;
         Drifts_StatusFilters := if 0 <? len status then status else [] |} in
    let '(output, err) := Client_DescribeStackResourceDrifts input in
    (match err, output with
     | Some err, _ => Returns ([], Some err)
     | None, None => Panics
     | None, Some output => Returns (StackResourceDrifts output, None)
     end,
     [input]).

(** Get stack resources. *)
Definition GetStackResources (stackName : string)
  : outcome (list StackResource * option error) * list DescribeStackResourcesInput :=
  let input := {| Resources_StackName := stackName |} in
  let '(output, err) := Client_DescribeStackResources input in
  (match err, output with
   | Some err, _ => Returns ([], Some err)
   | None, None => Panics
   | None, Some output => Returns (StackResources output, None)
   end,
   [input]).

(** *** The vocabulary of their properties *)

(** The requests of an aggregation: one per token. *)
Definition ListStacks_requests (statusFilter : list string)
    (tokens : list (option string)) : list Call :=
  map (fun tok =>
         Call_ListStacks
           {| cf.ListStacks_NextToken := tok;
              cf.ListStacks_StackStatusFilter := statusFilter |})
      tokens.

Definition DescribeStacks_requests (tokens : list (option string)) : list Call :=
  map (fun tok =>
         Call_DescribeStacks
           {| cf.DescribeStacks_NextToken := tok;
              cf.DescribeStacks_StackName := None |})
      tokens.

Definition Events_requests (stackName : string)
    (tokens : list (option string)) : list Call :=
  map (fun tok =>
         Call_DescribeStackEvents
           {| cf.Events_NextToken := tok; cf.Events_StackName := stackName |})
      tokens.

(** The tokens that an aggregation sends over a list of pages: none first,
    then the token of each page. *)
Definition tokens_of {A : Type} (pages : list (list A * string)) : list (option string) :=
  None :: map (fun p => Some (snd p)) pages.

(** A world after a run: the answers left, the requests made since, the
    signals left and the lines and events written since. *)
Definition after (w : World) (rest : list Reply) (made : list Call)
    (ss : list (option (option error))) (lines : list string)
    (events : list cf.StackEvent) : World :=
  mkWorld rest (requests w ++ made) ss (clock w) (stdout w ++ lines) (shown w ++ events).

(** The request of the remote validation: the body when there is one, the
    URL otherwise. *)
Definition validate_input (tpl : list byte) (url : string)
  : option cf.ValidateTemplateInput :=
  if 0 <? len tpl then body_input tpl
  else Some {| cf.Validate_TemplateBody := None; cf.Validate_TemplateURL := Some url |}.

(** A validation error of the service. *)
Definition is_validation_error (err : error) : bool :=
  match err with
  | awserr_Error code _ => (code =? "ValidationError")%string
  | errors_New _ => false
  end.

(** The first object whose conversion fails, with the objects before it. *)
Definition converts (fn : object -> string * option error) (o : object) : bool :=
  match snd (fn o) with
  | None => true
  | Some _ => false
  end.

(** Where the value returned by a turn comes from. *)
Definition from_world (w : World) (ret : option error) : Prop :=
  In (Some ret) (signals w)
  \/ exists err, ret = Some err /\ In (Reply_error err) (replies w).

(** A world with more lines on standard output. *)
Definition print_lines (lines : list string) (w : World) : World :=
  mkWorld (replies w) (requests w) (signals w) (clock w) (stdout w ++ lines) (shown w).

Definition err_no_object : option error :=
  Some (errors_New "Printing output error: No object given").

Definition err_not_found (stackName : string) : option error :=
  Some (errors_New ("Failed to find stack " ++ stackName)).

(** The worlds and the library functions of the further concrete runs. *)
Definition stack_named (name : string) : cf.Stack :=
  {| cf.Stack_StackId := ("id-" ++ name)%string; cf.Stack_StackName := name;
     cf.Stack_StackStatus := "CREATE_COMPLETE" |}.
Definition pages_stacks : list (list (option cf.Stack) * string) :=
  [([Some (stack_named "a")], "t1"%string)].
Definition world_stacks : World :=
  world (map DescribeStacks_page pages_stacks
           ++ [DescribeStacks_last [Some (stack_named "b")]]) [].
Definition world_stacks_broken : World :=
  world (map DescribeStacks_page pages_stacks ++ [Reply_error err_throttling]) [].

Definition valid_iam : cf.ValidateTemplateOutput :=
  {| cf.Capabilities := ["CAPABILITY_IAM"%string] |}.
Definition created : cf.ChangeStackOutput := {| cf.StackId := "id-demo" |}.
Definition world_create : World :=
  world [Reply_ValidateTemplate valid_iam; Reply_CreateStack created] [].

Definition world_final : World :=
  world [Events_last [e300; e200]] [Some None].
Definition world_deleted : World :=
  world [Reply_error err_no_stack; Reply_error err_no_stack] [None; Some None].

(** A marshaler that fails on an error value. *)
Definition marshal_values (o : object) : string * option error :=
  match o with
  | obj_string s => (s, None)
  | obj_error err => (EmptyString, Some err)
  | obj_stack (Some stack) => (cf.Stack_StackName stack, None)
  | obj_stack None => ("null"%string, None)
  | obj_stacks stacks =>
    (String.concat ","
       (map (fun o => match o with
                      | Some stack => cf.Stack_StackName stack
                      | None => "null"%string
                      end) stacks), None)
  end.
Definition show_value (o : object) : string := fst (marshal_values o).

Definition described (name : string) : Reply :=
  Reply_DescribeStacks
    {| cf.Stacks := [Some (stack_named name)];
       cf.DescribeStacksOutput_NextToken := None |}.
Definition world_renamed : World := world [described "demo"; described "demo-2"] [].

(** A client whose drift detection answers with the id of the stack. *)
Definition detect_by_name (input : DetectStackDriftInput)
  : option DetectStackDriftOutput * option error :=
  (Some {| StackDriftDetectionId := Some ("drift-" ++ Detect_StackName input)%string |},
   None).

(** * Properties *)

(** ** Running Go code in a world *)

Lemma bind_Returns {A B : Type} (m : M A) (k : A -> M B) (w w' : World) (a : A) :
  m w = (Returns a, w') -> bind m k w = k a w'.
Proof. intros E. unfold bind. now rewrite E. Qed.

(** *** Template validation *)

Lemma ValidateTemplate_too_long (tpl : list byte) (url : string) (w : World) :
  maxTemplateLength < len tpl ->
  ValidateTemplate tpl url w = (Returns (None, err_template_size), w).
Proof.
  intros H. unfold ValidateTemplate.
  assert (E0 : (len tpl =? 0) = false) by (unfold maxTemplateLength in H; lia).
  assert (E1 : (0 <? len tpl) = true) by (unfold maxTemplateLength in H; lia).
  assert (E2 : (maxTemplateLength <? len tpl) = true) by lia.
  rewrite E0, E1, E2. reflexivity.
Qed.

Lemma ValidateTemplate_body (tpl : list byte) (url : string) (w : World) :
  0 < len tpl -> len tpl <= maxTemplateLength ->
  ValidateTemplate tpl url w = Client.ValidateTemplate (body_input tpl) w.
Proof.
  intros H0 H1. unfold ValidateTemplate.
  assert (E0 : (len tpl =? 0) = false) by lia.
  assert (E1 : (0 <? len tpl) = true) by lia.
  assert (E2 : (maxTemplateLength <? len tpl) = false) by lia.
  rewrite E0, E1, E2. reflexivity.
Qed.

Lemma first_request_change (create : bool) (name : string) (params tags : gomap)
    (tpl : list byte) (url : string) (w : World) :
  0 < len tpl -> len tpl <= maxTemplateLength ->
  first_request
    (if create then CreateStack name params tags tpl url
     else UpdateStack name params tags tpl url)
    w (Call_ValidateTemplate (body_input tpl)).
Proof.
  intros H0 H1. unfold first_request.
  assert (E : forall k : _ -> M (option cf.ChangeStackOutput * option error),
             bind (ValidateTemplate tpl url) k w
             = bind (Client.ValidateTemplate (body_input tpl)) k w).
  { intros k. unfold bind. now rewrite ValidateTemplate_body. }
  destruct create; unfold CreateStack, UpdateStack; rewrite E; clear E;
    run_client;
    (destruct (replies w) as [|r rs]; simpl; [exists []; reflexivity|]);
    destruct r; simpl; try (exists []; reflexivity);
    (destruct rs as [|r' rs']; simpl; [|destruct r'; simpl]);
    rewrite <- ?app_assoc; simpl; eexists; reflexivity.
Qed.

(** C4. [ValidateTemplate] accepts a body of exactly 51200 bytes: the local
    checks pass and the body goes to the remote validation, which is also
    the first call of [CreateStack] and [UpdateStack].  A body of 51201
    bytes or more is rejected by all three with the size error, the world
    unchanged: no remote call is made. *)
Theorem template_size_boundary
    (name : string) (params tags : gomap) (tpl : list byte) (url : string) (w : World) :
  (len tpl = 51200 ->
     ValidateTemplate tpl url w = Client.ValidateTemplate (body_input tpl) w
     /\ first_request (ValidateTemplate tpl url) w
          (Call_ValidateTemplate (body_input tpl))
     /\ first_request (CreateStack name params tags tpl url) w
          (Call_ValidateTemplate (body_input tpl))
     /\ first_request (UpdateStack name params tags tpl url) w
          (Call_ValidateTemplate (body_input tpl)))
  /\ (51201 <= len tpl ->
        ValidateTemplate tpl url w = (Returns (None, err_template_size), w)
        /\ CreateStack name params tags tpl url w
           = (Returns (None, err_template_size), w)
        /\ UpdateStack name params tags tpl url w
           = (Returns (None, err_template_size), w)).
Proof.
  split; intros H.
  - assert (H0 : 0 < len tpl) by lia.
    assert (H1 : len tpl <= maxTemplateLength) by (unfold maxTemplateLength; lia).
    split; [now apply ValidateTemplate_body|].
    split; [|split].
    + unfold first_request. rewrite (ValidateTemplate_body tpl url w H0 H1).
      run_client. destruct (replies w) as [|r rs]; [|destruct r];
        exists []; reflexivity.
    + exact (first_request_change true name params tags tpl url w H0 H1).
    + exact (first_request_change false name params tags tpl url w H0 H1).
  - assert (H' : maxTemplateLength < len tpl) by (unfold maxTemplateLength; lia).
    pose proof (ValidateTemplate_too_long tpl url w H') as E.
    split; [exact E|].
    unfold CreateStack, UpdateStack, bind. rewrite E. split; reflexivity.
Qed.

(** C5. With the body and the URL both empty, [ValidateTemplate],
    [CreateStack] and [UpdateStack] fail with the missing-template error,
    the world unchanged.  With both non-empty the URL is ignored: each of
    the three runs as it does with an empty URL, a body within the size
    limit is what the remote validation receives, and the input of the
    create or update call carries the body and no URL. *)
Theorem template_source (name : string) (params tags : gomap) (w : World) :
  (ValidateTemplate [] "" w = (Returns (None, err_missing_template), w)
   /\ CreateStack name params tags [] "" w
      = (Returns (None, err_missing_template), w)
   /\ UpdateStack name params tags [] "" w
      = (Returns (None, err_missing_template), w))
  /\ forall (tpl : list byte) (url : string),
       0 < len tpl -> 0 < strlen url ->
       ValidateTemplate tpl url w = ValidateTemplate tpl "" w
       /\ CreateStack name params tags tpl url w
          = CreateStack name params tags tpl "" w
       /\ UpdateStack name params tags tpl url w
          = UpdateStack name params tags tpl "" w
       /\ (len tpl <= maxTemplateLength ->
           ValidateTemplate tpl url w = Client.ValidateTemplate (body_input tpl) w)
       /\ (forall capabilities,
             let input := change_input name params (tagPkgStamp tags) capabilities tpl url in
             cf.Change_TemplateBody input = Some (string_of_list_byte tpl)
             /\ cf.Change_TemplateURL input = None).
Proof.
  split; [repeat split|].
  intros tpl url H0 H1.
  assert (E0 : (len tpl =? 0) = false) by lia.
  assert (E1 : (0 <? len tpl) = true) by lia.
  assert (EV : ValidateTemplate tpl url w = ValidateTemplate tpl "" w).
  { unfold ValidateTemplate. rewrite E0, E1. reflexivity. }
  assert (EI : forall capabilities,
             change_input name params (tagPkgStamp tags) capabilities tpl url
             = change_input name params (tagPkgStamp tags) capabilities tpl "").
  { intros c. unfold change_input. rewrite E1. reflexivity. }
  split; [exact EV|].
  split; [|split; [|split]].
  - unfold CreateStack, bind. rewrite EV.
    destruct (ValidateTemplate tpl "" w) as [[[[v|] [e|]]| |] w1]; try reflexivity.
    now rewrite EI.
  - unfold UpdateStack, bind. rewrite EV.
    destruct (ValidateTemplate tpl "" w) as [[[[v|] [e|]]| |] w1]; try reflexivity.
    now rewrite EI.
  - intros H2. now apply ValidateTemplate_body.
  - intros c. unfold change_input. simpl. rewrite E1. split; reflexivity.
Qed.

(** *** Describing a stack *)

Lemma DescribeStack_named (stackName : string) (w : World) :
  0 < strlen stackName ->
  DescribeStack stackName w =
  match replies w with
  | [] => (Stuck, log_request (describe_request stackName) w)
  | r :: rs =>
    let w' := set_replies rs (log_request (describe_request stackName) w) in
    match r with
    | Reply_error err => (Returns (None, Some err), w')
    | Reply_DescribeStacks out =>
      match cf.Stacks out with
      | [] => (Panics, w')
      | stack :: _ => (Returns (stack, None), w')
      end
    | _ => (Stuck, w')
    end
  end.
Proof.
  intros H. unfold DescribeStack.
  assert (E : (strlen stackName <=? 0) = false) by lia.
  rewrite E. run_client. fold (describe_request stackName).
  destruct (replies w) as [|r rs]; [reflexivity|].
  destruct r; try reflexivity.
  simpl. destruct (cf.Stacks output); reflexivity.
Qed.

(** C6. [Exist] returns true exactly when [DescribeStack] returns a non-nil
    stack record and a nil error.  Whenever [DescribeStack] returns an
    error, [Exist] returns false and no error: so it does for the empty
    name, where no call is made, and for a named stack when the remote
    call fails. *)
Theorem Exist_iff_described (stackName : string) (w : World) :
  (fst (Exist stackName w) = Returns true <->
     exists stack w', DescribeStack stackName w = (Returns (Some stack, None), w'))
  /\ (forall stacks err w',
        DescribeStack stackName w = (Returns (stacks, Some err), w') ->
        Exist stackName w = (Returns false, w'))
  /\ Exist "" w = (Returns false, w)
  /\ (forall err rs,
        0 < strlen stackName -> replies w = Reply_error err :: rs ->
        Exist stackName w
        = (Returns false, set_replies rs (log_request (describe_request stackName) w))).
Proof.
  split; [|split; [|split]].
  - unfold Exist, bind.
    destruct (DescribeStack stackName w) as [[[[s|] [e|]]| |] w1]; simpl;
      (split; [intros E; try discriminate E|intros [s' [w' E]]; try discriminate E]).
    + now exists s, w1.
    + reflexivity.
  - intros stacks err w' E. unfold Exist, bind. rewrite E. reflexivity.
  - reflexivity.
  - intros err rs H E. unfold Exist, bind.
    rewrite (DescribeStack_named stackName w H), E. reflexivity.
Qed.

(** C10. When the remote describe call succeeds, [DescribeStack] returns
    the first element of the response's stack list, whatever follows it.
    It does not check that the list is non-empty: on a successful response
    with an empty list the element access panics, and so does [Exist]. *)
Theorem DescribeStack_first_record
    (stackName : string) (w : World) (out : cf.DescribeStacksOutput) (rs : list Reply) :
  0 < strlen stackName ->
  replies w = Reply_DescribeStacks out :: rs ->
  let w' := set_replies rs (log_request (describe_request stackName) w) in
  (forall stack rest,
     cf.Stacks out = stack :: rest ->
     DescribeStack stackName w = (Returns (stack, None), w'))
  /\ (cf.Stacks out = [] ->
      DescribeStack stackName w = (Panics, w') /\ Exist stackName w = (Panics, w')).
Proof.
  intros H E w'. split.
  - intros stack rest Es.
    rewrite (DescribeStack_named stackName w H), E. simpl. now rewrite Es.
  - intros Es.
    assert (ED : DescribeStack stackName w = (Panics, w')).
    { rewrite (DescribeStack_named stackName w H), E. simpl. now rewrite Es. }
    split; [exact ED|]. unfold Exist, bind. now rewrite ED.
Qed.

(** *** Aggregating pages *)

Lemma append_if_nonempty {A : Type} (acc items : list A) :
  (if 0 <? len items then acc ++ items else acc) = acc ++ items.
Proof.
  destruct items as [|a items]; simpl.
  - now rewrite app_nil_r.
  - unfold len. simpl. reflexivity.
Qed.

Lemma ListStacks_loop_pages (statusFilter : list string) (final : Reply)
    (rest : list Reply) (pages : list (list cf.StackSummary * string)) :
  forall (fuel : nat) (nextToken : option string) (acc : list cf.StackSummary) (w : World),
    replies w = map ListStacks_page pages ++ final :: rest ->
    (List.length pages < fuel)%nat ->
    (forall items, final = ListStacks_last items ->
       fst (ListStacks_loop fuel statusFilter nextToken acc w)
       = Returns (acc ++ items_of pages ++ items, None))
    /\ (forall err, final = Reply_error err ->
       fst (ListStacks_loop fuel statusFilter nextToken acc w)
       = Returns (acc ++ items_of pages, Some err)).
Proof.
  induction pages as [|p pages IH]; intros fuel tok acc w E F;
    (destruct fuel as [|fuel]; [simpl in F; lia|]); simpl in E.
  - split; intros x ->; simpl; run_client; rewrite E; simpl.
    + now rewrite append_if_nonempty.
    + now rewrite app_nil_r.
  - simpl. run_client. rewrite E. simpl. rewrite append_if_nonempty.
    match goal with
    | |- context [ListStacks_loop fuel statusFilter ?t ?a ?w1] =>
      destruct (IH fuel t a w1) as [IH1 IH2]; [reflexivity|simpl in F; lia|]
    end.
    unfold items_of. simpl. rewrite <- !app_assoc in *.
    split; intros x Ex; [rewrite (IH1 x Ex)|rewrite (IH2 x Ex)];
      unfold items_of; now rewrite <- ?app_assoc.
Qed.

Lemma DescribeStacks_loop_pages (final : Reply)
    (rest : list Reply) (pages : list (list (option cf.Stack) * string)) :
  forall (fuel : nat) (nextToken : option string) (acc : list (option cf.Stack)) (w : World),
    replies w = map DescribeStacks_page pages ++ final :: rest ->
    (List.length pages < fuel)%nat ->
    (forall items, final = DescribeStacks_last items ->
       fst (DescribeStacks_loop fuel nextToken acc w)
       = Returns (acc ++ items_of pages ++ items, None))
    /\ (forall err, final = Reply_error err ->
       fst (DescribeStacks_loop fuel nextToken acc w)
       = Returns (acc ++ items_of pages, Some err)).
Proof.
  induction pages as [|p pages IH]; intros fuel tok acc w E F;
    (destruct fuel as [|fuel]; [simpl in F; lia|]); simpl in E.
  - split; intros x ->; simpl; run_client; rewrite E; simpl.
    + now rewrite append_if_nonempty.
    + now rewrite app_nil_r.
  - simpl. run_client. rewrite E. simpl. rewrite append_if_nonempty.
    match goal with
    | |- context [DescribeStacks_loop fuel ?t ?a ?w1] =>
      destruct (IH fuel t a w1) as [IH1 IH2]; [reflexivity|simpl in F; lia|]
    end.
    unfold items_of. simpl. rewrite <- !app_assoc in *.
    split; intros x Ex; [rewrite (IH1 x Ex)|rewrite (IH2 x Ex)];
      unfold items_of; now rewrite <- ?app_assoc.
Qed.

(** *** Fetching events *)

Lemma retained_spec (timestamp : time.Time) (se : cf.StackEvent) :
  retained timestamp se = true <-> timestamp = 0 \/ timestamp <= cf.Timestamp se.
Proof.
  unfold retained, time.IsZero, time.After.
  destruct (Z.eqb_spec timestamp 0), (Z.ltb_spec (cf.Timestamp se) timestamp);
    simpl; split; intros Hr; try reflexivity; try discriminate; lia.
Qed.

Lemma record_events_filter (timestamp : time.Time) (page result : list cf.StackEvent) :
  record_events timestamp result page = result ++ filter (retained timestamp) page.
Proof.
  unfold record_events. revert result.
  induction page as [|se page IH]; intros result; simpl.
  - now rewrite app_nil_r.
  - rewrite IH. unfold retained at 2.
    destruct (negb (time.IsZero timestamp) && time.After timestamp (cf.Timestamp se));
      simpl; [reflexivity|now rewrite <- app_assoc].
Qed.

Lemma GetStackEvents_loop_pages (stackName : string) (timestamp : time.Time)
    (final : Reply) (rest : list Reply) (pages : list (list cf.StackEvent * string)) :
  forall (fuel : nat) (input : cf.DescribeStackEventsInput)
         (acc : list cf.StackEvent) (w : World),
    replies w = map Events_page pages ++ final :: rest ->
    (List.length pages < fuel)%nat ->
    (forall items, final = Events_last items ->
       fst (GetStackEvents_loop fuel stackName timestamp input acc w)
       = Returns (sort_Slice less_Timestamp
                    (acc ++ filter (retained timestamp) (items_of pages ++ items)), None))
    /\ (forall err, final = Reply_error err ->
       fst (GetStackEvents_loop fuel stackName timestamp input acc w)
       = Returns ([], Some err)).
Proof.
  induction pages as [|p pages IH]; intros fuel input acc w E F;
    (destruct fuel as [|fuel]; [simpl in F; lia|]); simpl in E.
  - split; intros x ->; simpl; run_client; rewrite E; simpl; [|reflexivity].
    now rewrite record_events_filter.
  - simpl. run_client. rewrite E. simpl. rewrite record_events_filter.
    match goal with
    | |- context [GetStackEvents_loop fuel stackName timestamp ?i ?a ?w1] =>
      destruct (IH fuel i a w1) as [IH1 IH2]; [reflexivity|simpl in F; lia|]
    end.
    split; intros x Ex; [rewrite (IH1 x Ex)|now rewrite (IH2 x Ex)].
    unfold items_of. simpl. now rewrite <- ?app_assoc, !filter_app, <- ?app_assoc.
Qed.

Lemma less_Timestamp_order : StrictWeakOrder less_Timestamp.
Proof.
  unfold less_Timestamp, time.Before.
  split; intros; rewrite ?Z.ltb_lt, ?Z.ltb_ge in *; lia.
Qed.

Lemma StronglySorted_impl {A : Type} (R R' : A -> A -> Prop) (x : list A) :
  (forall a b, In a x -> In b x -> R a b -> R' a b) ->
  StronglySorted R x -> StronglySorted R' x.
Proof.
  induction x as [|a x IH]; intros H S; [constructor|].
  inversion S as [|? ? Sx Fa]; subst. constructor.
  - apply IH; [|exact Sx]. intros u v Hu Hv. apply H; now right.
  - rewrite Forall_forall in Fa |- *. intros b Hb.
    apply H; [now left|now right|now apply Fa].
Qed.

Lemma sort_Slice_ascending (events : list cf.StackEvent) :
  ascending (sort_Slice less_Timestamp events).
Proof.
  unfold ascending.
  apply StronglySorted_impl with (R := fun a b => less_Timestamp b a = false).
  - intros a b _ _. unfold less_Timestamp, time.Before. rewrite Z.ltb_ge. lia.
  - apply sort_Slice_sorted, less_Timestamp_order.
Qed.

Lemma ascending_strict (events : list cf.StackEvent) :
  ascending events -> NoDup (map cf.Timestamp events) -> strictly_ascending events.
Proof.
  unfold ascending, strictly_ascending.
  induction events as [|a events IH]; intros S N; [constructor|].
  inversion S as [|? ? Sx Fa]; subst. simpl in N.
  inversion N as [|? ? Na Nx]; subst. constructor; [now apply IH|].
  rewrite Forall_forall in Fa |- *. intros b Hb.
  assert (cf.Timestamp a <> cf.Timestamp b).
  { intros Eab. apply Na. rewrite Eab. now apply in_map. }
  specialize (Fa b Hb). lia.
Qed.

Lemma NoDup_map_filter {A B : Type} (f : A -> B) (p : A -> bool) (x : list A) :
  NoDup (map f x) -> NoDup (map f (filter p x)).
Proof.
  induction x as [|a x IH]; simpl; intros N; [constructor|].
  inversion N as [|? ? Na Nx]; subst.
  destruct (p a); simpl; [|now apply IH].
  constructor; [|now apply IH].
  intros Hin. apply Na. rewrite in_map_iff in Hin |- *.
  destruct Hin as [b [Eb Hb]]. exists b. split; [exact Eb|].
  now apply filter_In in Hb.
Qed.

Lemma GetStackEvents_pages (stackName : string) (timestamp : time.Time)
    (w : World) (pages : list (list cf.StackEvent * string))
    (items : list cf.StackEvent) (rest : list Reply) :
  replies w = map Events_page pages ++ Events_last items :: rest ->
  fst (GetStackEvents stackName timestamp w)
  = Returns (sort_Slice less_Timestamp
               (filter (retained timestamp) (items_of pages ++ items)), None).
Proof.
  intros E. unfold GetStackEvents.
  match goal with
  | |- fst (GetStackEvents_loop ?f _ _ ?i ?a w) = _ =>
    destruct (GetStackEvents_loop_pages stackName timestamp (Events_last items) rest
                pages f i a w E) as [H _]
  end.
  - rewrite E, length_app, length_map. simpl. lia.
  - now rewrite (H items eq_refl).
Qed.

Lemma GetStackEvents_pages_error (stackName : string) (timestamp : time.Time)
    (w : World) (pages : list (list cf.StackEvent * string))
    (err : error) (rest : list Reply) :
  replies w = map Events_page pages ++ Reply_error err :: rest ->
  fst (GetStackEvents stackName timestamp w) = Returns ([], Some err).
Proof.
  intros E. unfold GetStackEvents.
  match goal with
  | |- fst (GetStackEvents_loop ?f _ _ ?i ?a w) = _ =>
    destruct (GetStackEvents_loop_pages stackName timestamp (Reply_error err) rest
                pages f i a w E) as [_ H]
  end.
  - rewrite E, length_app, length_map. simpl. lia.
  - now rewrite (H err eq_refl).
Qed.

(** C3. Whatever the order in which the pages deliver the events,
    [GetStackEvents] returns them (those it retains) ascending by
    timestamp, and strictly ascending when no two of the delivered events
    share a timestamp. *)
Theorem GetStackEvents_ascending (stackName : string) (timestamp : time.Time)
    (w : World) (pages : list (list cf.StackEvent * string))
    (items : list cf.StackEvent) (rest : list Reply) :
  replies w = map Events_page pages ++ Events_last items :: rest ->
  exists events,
    fst (GetStackEvents stackName timestamp w) = Returns (events, None)
    /\ Permutation (filter (retained timestamp) (items_of pages ++ items)) events
    /\ ascending events
    /\ (NoDup (map cf.Timestamp (items_of pages ++ items)) -> strictly_ascending events).
Proof.
  intros E.
  exists (sort_Slice less_Timestamp (filter (retained timestamp) (items_of pages ++ items))).
  split; [|split; [|split]].
  - now apply GetStackEvents_pages with (rest := rest).
  - apply sort_Slice_perm.
  - apply sort_Slice_ascending.
  - intros N. apply ascending_strict; [apply sort_Slice_ascending|].
    apply (Permutation_NoDup (l := map cf.Timestamp
             (filter (retained timestamp) (items_of pages ++ items)))).
    + apply Permutation_map, sort_Slice_perm.
    + now apply NoDup_map_filter.
Qed.

(** What a fetch does in any world: it leaves the output, the signals and
    the clock alone, and when it returns, it has consumed the script up to
    the end of the first listing, which it returns filtered and sorted. *)
Lemma GetStackEvents_loop_any (stackName : string) (timestamp : time.Time) :
  forall (fuel : nat) (input : cf.DescribeStackEventsInput)
         (cur : list cf.StackEvent) (w : World),
    let r := GetStackEvents_loop fuel stackName timestamp input
               (filter (retained timestamp) cur) w in
    shown (snd r) = shown w /\ stdout (snd r) = stdout w
    /\ signals (snd r) = signals w /\ clock (snd r) = clock w
    /\ match fst r with
       | Returns (events, None) =>
         exists full,
           listings cur (replies w) = full :: listings [] (replies (snd r))
           /\ events = sort_Slice less_Timestamp (filter (retained timestamp) full)
       | Returns (events, Some _) =>
         events = [] /\ listings cur (replies w) = listings [] (replies (snd r))
       | _ => True
       end.
Proof.
  induction fuel as [|fuel IH]; intros input cur w; simpl.
  - repeat split.
  - run_client. destruct (replies w) as [|r rs] eqn:E; simpl; [repeat split|].
    destruct r; simpl; try (repeat split; fail).
    rewrite record_events_filter, <- filter_app.
    destruct (cf.Events_out_NextToken output) as [tok|] eqn:Et.
    + match goal with
      | |- context [GetStackEvents_loop fuel stackName timestamp ?i _ ?w1] =>
        specialize (IH i (cur ++ cf.StackEvents output) w1); simpl in IH
      end.
      exact IH.
    + simpl. repeat split. now exists (cur ++ cf.StackEvents output).
Qed.

Lemma GetStackEvents_any (stackName : string) (timestamp : time.Time) (w : World) :
  let r := GetStackEvents stackName timestamp w in
  shown (snd r) = shown w /\ stdout (snd r) = stdout w
  /\ signals (snd r) = signals w /\ clock (snd r) = clock w
  /\ match fst r with
     | Returns (events, None) =>
       exists full,
         listings [] (replies w) = full :: listings [] (replies (snd r))
         /\ events = sort_Slice less_Timestamp (filter (retained timestamp) full)
     | Returns (events, Some _) =>
       events = [] /\ listings [] (replies w) = listings [] (replies (snd r))
     | _ => True
     end.
Proof.
  unfold GetStackEvents.
  exact (GetStackEvents_loop_any stackName timestamp _ _ [] w).
Qed.

(** *** Polling *)

Lemma write_lines_fields (stackName waiterType : string) (batch : list cf.StackEvent) :
  forall w : World,
    let w' := write_lines stackName waiterType batch w in
    shown w' = shown w ++ batch
    /\ stdout w' = stdout w ++ map (event_line stackName waiterType) batch
    /\ replies w' = replies w /\ signals w' = signals w
    /\ clock w' = clock w /\ requests w' = requests w.
Proof.
  induction batch as [|e batch IH]; intros w; simpl.
  - now rewrite !app_nil_r.
  - destruct (IH (write_line e (event_line stackName waiterType e) w))
      as (H1 & H2 & H3 & H4 & H5 & H6).
    unfold write_lines in *. rewrite H1, H2, H3, H4, H5, H6. simpl.
    now rewrite <- !app_assoc.
Qed.

Lemma latest_le (timestamp : time.Time) (batch : list cf.StackEvent) :
  timestamp <= latest timestamp batch
  /\ Forall (fun evnt => cf.Timestamp evnt <= latest timestamp batch) batch.
Proof.
  induction batch as [|e batch [IH1 IH2]]; simpl.
  - split; [lia|constructor].
  - split; [lia|]. constructor; [lia|].
    eapply Forall_impl; [|exact IH2]. simpl. intros; lia.
Qed.

(** The inner loop prints the printable events in order; [tmpTime] ends as
    the latest timestamp among its start and theirs. *)
Lemma print_events_spec (stackName waiterType : string) (timestamp : time.Time)
    (events : list cf.StackEvent) :
  forall (tmpTime : time.Time) (w : World),
    exists t,
      print_events stackName waiterType timestamp events tmpTime w
      = (Returns t, write_lines stackName waiterType (printable timestamp events) w)
      /\ Z.max tmpTime (latest timestamp (printable timestamp events))
         = Z.max t timestamp.
Proof.
  induction events as [|e events IH]; intros tmp w; simpl.
  - exists tmp. split; [reflexivity|lia].
  - destruct (time.Before timestamp (cf.Timestamp e)) eqn:Eb; simpl.
    + unfold bind, InfoPrint.
      match goal with
      | |- context [print_events _ _ _ events ?tmp' ?w1] =>
        destruct (IH tmp' w1) as [t [E H]]
      end.
      exists t. split; [exact E|].
      unfold time.Before in *.
      destruct (Z.ltb_spec tmp (cf.Timestamp e)); lia.
    + apply IH.
Qed.

Lemma print_events_latest (stackName waiterType : string) (timestamp : time.Time)
    (events : list cf.StackEvent) (w : World) :
  print_events stackName waiterType timestamp events timestamp w
  = (Returns (latest timestamp (printable timestamp events)),
     write_lines stackName waiterType (printable timestamp events) w).
Proof.
  destruct (print_events_spec stackName waiterType timestamp events timestamp w)
    as [t [E H]].
  rewrite E. f_equal. f_equal.
  pose proof (latest_le timestamp (printable timestamp events)) as [L _].
  assert (timestamp <= t); [|lia].
  clear H L. revert E. generalize w. generalize timestamp at 2 4 as tmp.
  induction events as [|e events IH]; intros tmp w0; simpl.
  - intros E. inversion E. lia.
  - destruct (time.Before timestamp (cf.Timestamp e)) eqn:Eb; simpl.
    + unfold bind, InfoPrint. intros E. apply IH in E.
      unfold time.Before in *. destruct (Z.ltb_spec tmp (cf.Timestamp e)); lia.
    + apply IH.
Qed.

Lemma ascending_filter (p : cf.StackEvent -> bool) (events : list cf.StackEvent) :
  ascending events -> ascending (filter p events).
Proof.
  unfold ascending. induction events as [|e events IH]; intros S; simpl; [constructor|].
  inversion S as [|? ? Sx Fe]; subst.
  destruct (p e); [|now apply IH].
  constructor; [now apply IH|].
  rewrite Forall_forall in Fe |- *. intros b Hb. apply Fe.
  now apply filter_In in Hb.
Qed.

Lemma printable_after (timestamp : time.Time) (events : list cf.StackEvent) :
  Forall (fun evnt => timestamp < cf.Timestamp evnt) (printable timestamp events).
Proof.
  rewrite Forall_forall. intros e He. apply filter_In in He.
  destruct He as [_ He]. unfold time.Before in He. lia.
Qed.

Lemma printable_empty (timestamp : time.Time) (events : list cf.StackEvent) :
  (0 <? len events) = false -> printable timestamp events = [].
Proof.
  destruct events; [reflexivity|]. unfold len. simpl. discriminate.
Qed.

Lemma end_turn_spec (timestamp : time.Time) (returned : option (option error))
    (w : World) :
  let r := end_turn timestamp returned w in
  shown (snd r) = shown w /\ stdout (snd r) = stdout w
  /\ replies (snd r) = replies w /\ clock (snd r) = clock w
  /\ forall t' ret, fst r = Returns (t', ret) -> t' = timestamp.
Proof.
  unfold end_turn, select_stop, Sleep, bind, ret.
  destruct returned as [err|]; simpl.
  - repeat split. intros t' r E. now inversion E.
  - destruct (signals w) as [|[err|] ss]; simpl; repeat split;
      intros t' r E; now inversion E.
Qed.

(** One turn, in any world.  [batch] is what the turn prints. *)
Lemma PollStackEvents_turn_spec (stackName waiterType : string)
    (timestamp : time.Time) (w : World) :
  let r := PollStackEvents_turn stackName waiterType timestamp w in
  exists batch,
    shown (snd r) = shown w ++ batch
    /\ stdout (snd r)
       = stdout w ++ map (event_line stackName waiterType) batch
    /\ clock (snd r) = clock w
    /\ Forall (fun evnt => timestamp < cf.Timestamp evnt) batch
    /\ ascending batch
    /\ (Forall (@NoDup cf.StackEvent) (listings [] (replies w)) -> NoDup batch)
    /\ forall t' ret,
         fst r = Returns (t', ret) ->
         t' = latest timestamp batch
         /\ (Forall (@NoDup cf.StackEvent) (listings [] (replies w)) ->
             Forall (@NoDup cf.StackEvent) (listings [] (replies (snd r)))).
Proof.
  intros r.
  assert (R : r = PollStackEvents_turn stackName waiterType timestamp w)
    by reflexivity.
  clearbody r. unfold PollStackEvents_turn in R. unfold bind in R at 1.
  pose proof (GetStackEvents_any stackName timestamp w) as G. simpl in G.
  destruct (GetStackEvents stackName timestamp w) as [[[events [err|]]| |] w1];
    simpl in G; destruct G as (G1 & G2 & G3 & G4 & G5); subst r.
  - (* the fetch fails *)
    destruct G5 as [_ G5].
    assert (N : forall m : M (time.Time * option (option error)),
               (forall w0, m w0 = (Panics, w0)
                           \/ exists ret, m w0 = (Returns (timestamp, ret), w0)) ->
               let r := bind m (fun x => let '(t, ret) := x in end_turn t ret) w1 in
               shown (snd r) = shown w1 /\ stdout (snd r) = stdout w1
               /\ replies (snd r) = replies w1 /\ clock (snd r) = clock w1
               /\ forall t' ret, fst r = Returns (t', ret) -> t' = timestamp).
    { intros m Hm. unfold bind. destruct (Hm w1) as [E|[ret E]]; rewrite E.
      - simpl. repeat split. discriminate.
      - apply end_turn_spec. }
    match goal with
    | |- context [bind ?m _ w1] => specialize (N m)
    end.
    destruct N as (N1 & N2 & N3 & N4 & N5).
    { intros w0. destruct err as [code message|text]; simpl.
      - destruct (waiterType =? StackWaiterTypeDelete)%string; simpl;
          [right; eexists; reflexivity|].
        unfold bind, ret.
        destruct (code =? "ValidationError")%string; simpl;
          right; eexists; reflexivity.
      - rewrite orb_true_r. left. reflexivity. }
    exists []. rewrite !app_nil_r, <- G1, <- G2, <- G4.
    split; [exact N1|]. split; [exact N2|]. split; [exact N4|].
    repeat split; try constructor.
    + exact (N5 _ _ H).
    + intros F. rewrite G5 in F. rewrite <- N3 in F. exact F.
  - (* the fetch returns a batch *)
    destruct G5 as [full [L ->]].
    set (events := sort_Slice less_Timestamp (filter (retained timestamp) full)).
    assert (P : (if 0 <? len events
                 then bind (print_events stackName waiterType timestamp
                              events timestamp)
                        (fun tmpTime => ret (tmpTime, None))
                 else ret (timestamp, None)) w1
                = (Returns (latest timestamp (printable timestamp events),
                            @None (option error)),
                   write_lines stackName waiterType (printable timestamp events) w1)).
    { destruct (0 <? len events) eqn:El.
      - unfold bind. rewrite print_events_latest. reflexivity.
      - rewrite (printable_empty timestamp events El). reflexivity. }
    rewrite (bind_Returns _ _ _ _ _ P). clear P.
    pose proof (write_lines_fields stackName waiterType (printable timestamp events) w1)
      as (W1 & W2 & W3 & W4 & W5 & W6).
    pose proof (end_turn_spec (latest timestamp (printable timestamp events)) None
                  (write_lines stackName waiterType (printable timestamp events) w1))
      as (T1 & T2 & T3 & T4 & T5).
    exists (printable timestamp events).
    rewrite <- G1, <- G2, <- G4, <- W1, <- W2, <- W5.
    split; [exact T1|]. split; [exact T2|]. split; [exact T4|].
    assert (NB : Forall (@NoDup cf.StackEvent) (listings [] (replies w)) ->
                 NoDup (printable timestamp events)).
    { rewrite L. intros F. inversion F as [|? ? Nf _]; subst.
      apply NoDup_filter.
      apply (Permutation_NoDup (sort_Slice_perm _ less_Timestamp _)).
      now apply NoDup_filter. }
    repeat split; trivial.
    + apply printable_after.
    + apply ascending_filter, sort_Slice_ascending.
    + exact (T5 _ _ H).
    + intros F. rewrite L in F. inversion F as [|? ? _ F']; subst.
      rewrite <- W3 in F'. rewrite <- T3 in F'. exact F'.
  - exists []. simpl. rewrite G1, G2, G4, !app_nil_r.
    repeat split; try constructor; discriminate.
  - exists []. simpl. rewrite G1, G2, G4, !app_nil_r.
    repeat split; try constructor; discriminate.
Qed.

(** C8. The loop runs its turns one after the other, each from the watermark
    that the turn before hands on.  In every turn, only events with a
    timestamp strictly after the turn's watermark are printed, and the
    watermark the turn hands on is the latest of the one it started from and
    the timestamps of the events it printed: it never regresses. *)
Theorem watermark_never_regresses (stackName waiterType : string)
    (timestamp : time.Time) (w : World) :
  let r := PollStackEvents_turn stackName waiterType timestamp w in
  (forall fuel,
     PollStackEvents_loop (S fuel) stackName waiterType timestamp w
     = match r with
       | (Returns (t', None), w') =>
         PollStackEvents_loop fuel stackName waiterType t' w'
       | (Returns (_, Some err), w') => (Returns err, w')
       | (Panics, w') => (Panics, w')
       | (Stuck, w') => (Stuck, w')
       end)
  /\ exists batch,
    shown (snd r) = shown w ++ batch
    /\ stdout (snd r)
       = stdout w ++ map (event_line stackName waiterType) batch
    /\ Forall (fun evnt => timestamp < cf.Timestamp evnt) batch
    /\ forall t' ret,
         fst r = Returns (t', ret) ->
         t' = latest timestamp batch /\ timestamp <= t'
         /\ Forall (fun evnt => cf.Timestamp evnt <= t') batch.
Proof.
  intros r. split.
  - intros fuel. simpl. unfold bind. fold r.
    destruct r as [[[t' [err|]]| |] w']; reflexivity.
  - destruct (PollStackEvents_turn_spec stackName waiterType timestamp w)
      as (batch & H1 & H2 & _ & H4 & _ & _ & H7).
    exists batch. fold r in H1, H2, H7.
    split; [exact H1|]. split; [exact H2|]. split; [exact H4|].
    intros t' ret E. destruct (H7 t' ret E) as [-> _].
    split; [reflexivity|apply latest_le].
Qed.

Lemma ascending_app (x y : list cf.StackEvent) (t : time.Time) :
  ascending x -> ascending y ->
  Forall (fun evnt => cf.Timestamp evnt <= t) x ->
  Forall (fun evnt => t < cf.Timestamp evnt) y ->
  ascending (x ++ y).
Proof.
  unfold ascending. intros Sx Sy Fx Fy.
  induction x as [|a x IH]; simpl; [exact Sy|].
  inversion Sx as [|? ? Sx' Fa]; subst.
  inversion Fx as [|? ? Ha Fx']; subst.
  constructor; [now apply IH|].
  apply Forall_app. split; [exact Fa|].
  eapply Forall_impl; [|exact Fy]. simpl. intros; lia.
Qed.

Lemma NoDup_apart (x y : list cf.StackEvent) (t : time.Time) :
  NoDup x -> NoDup y ->
  Forall (fun evnt => cf.Timestamp evnt <= t) x ->
  Forall (fun evnt => t < cf.Timestamp evnt) y ->
  NoDup (x ++ y).
Proof.
  intros Nx Ny Fx Fy.
  induction x as [|a x IH]; simpl; [exact Ny|].
  inversion Nx as [|? ? Na Nx']; subst.
  inversion Fx as [|? ? Ha Fx']; subst.
  constructor; [|now apply IH].
  intros Hin. apply in_app_or in Hin. destruct Hin as [Hin|Hin]; [now apply Na|].
  rewrite Forall_forall in Fy. specialize (Fy a Hin). lia.
Qed.

(** The loop, in any world whose fetches list no event twice: what it
    prints is free of repetitions, ascending, and after the watermark it
    starts from. *)
Lemma PollStackEvents_loop_spec (stackName waiterType : string) :
  forall (fuel : nat) (timestamp : time.Time) (w : World),
    Forall (@NoDup cf.StackEvent) (listings [] (replies w)) ->
    let r := PollStackEvents_loop fuel stackName waiterType timestamp w in
    exists printed,
      shown (snd r) = shown w ++ printed
      /\ stdout (snd r)
         = stdout w ++ map (event_line stackName waiterType) printed
      /\ NoDup printed /\ ascending printed
      /\ Forall (fun evnt => timestamp < cf.Timestamp evnt) printed.
Proof.
  induction fuel as [|fuel IH]; intros t w F; simpl.
  - exists []. rewrite !app_nil_r. repeat split; constructor.
  - destruct (PollStackEvents_turn_spec stackName waiterType t w)
      as (batch & H1 & H2 & _ & H4 & H5 & H6 & H7).
    unfold bind.
    destruct (PollStackEvents_turn stackName waiterType t w)
      as [[[t' [err|]]| |] w1]; simpl in *;
      try (exists batch; repeat split; auto; fail).
    destruct (H7 t' None eq_refl) as [-> F'].
    destruct (IH (latest t batch) w1 (F' F)) as (printed & P1 & P2 & P3 & P4 & P5).
    pose proof (latest_le t batch) as [L1 L2].
    exists (batch ++ printed).
    rewrite P1, P2, H1, H2, map_app, <- !app_assoc.
    repeat split.
    + apply NoDup_apart with (t := latest t batch); auto.
    + apply ascending_app with (t := latest t batch); auto.
    + apply Forall_app. split; [exact H4|].
      eapply Forall_impl; [|exact P5]. simpl. intros; lia.
Qed.

(** C9, as amended.  In a world whose fetches never list the same event
    twice, [PollStackEvents] prints no event twice, and it prints the
    events in non-decreasing timestamp order across all turns. *)
Theorem no_event_printed_twice (stackName waiterType : string) (w : World) :
  Forall (@NoDup cf.StackEvent) (listings [] (replies w)) ->
  let r := PollStackEvents stackName waiterType w in
  exists printed,
    shown (snd r) = shown w ++ printed
    /\ stdout (snd r)
       = stdout w ++ map (event_line stackName waiterType) printed
    /\ NoDup printed /\ ascending printed.
Proof.
  intros F r. subst r. unfold PollStackEvents, Now, bind.
  destruct (PollStackEvents_loop_spec stackName waiterType
              (S (List.length (signals w))) (clock w) w F)
    as (printed & P1 & P2 & P3 & P4 & _).
  now exists printed.
Qed.

(** *** The turn after a failed fetch *)

(** What the condition of [PollStackEvents] does with the error of a fetch:
    an [awserr.Error] is passed over when the waiter type is delete or its
    code is ValidationError and is returned otherwise; on any other error
    [awsErr] is nil and the call of [Code] panics. *)
Lemma PollStackEvents_turn_on_error (stackName waiterType : string)
    (timestamp : time.Time) (err : error) (rs : list Reply) (w : World) :
  replies w = Reply_error err :: rs ->
  let w1 := set_replies rs (log_request (events_request stackName) w) in
  PollStackEvents_turn stackName waiterType timestamp w =
  match err with
  | awserr_Error code _ =>
    if ((waiterType =? StackWaiterTypeDelete) || (code =? "ValidationError"))%string
    then end_turn timestamp None w1
    else (Returns (timestamp, Some (Some err)), w1)
  | errors_New _ => (Panics, w1)
  end.
Proof.
  intros E w1. unfold PollStackEvents_turn, GetStackEvents. simpl.
  run_client. fold (events_request stackName). rewrite E. simpl. fold w1.
  destruct err as [code message|text]; simpl.
  - destruct (waiterType =? StackWaiterTypeDelete)%string; simpl; [reflexivity|].
    destruct (code =? "ValidationError")%string; reflexivity.
  - rewrite orb_true_r. reflexivity.
Qed.

(** C1, on the code.  The fetch of the first turn fails and the waiter
    then reports success.  A wait for a create passes over the validation
    error and returns nil; a wait for a delete passes over a throttling
    error and returns nil; an error that is not an [awserr.Error] makes
    the wait panic.  The validation error during a delete is passed over,
    and the throttling error during a create is returned. *)
Theorem poll_error_tolerance :
  fst (PollStackEvents "demo" StackWaiterTypeCreate
         (world [Reply_error err_no_stack] [Some None])) = Returns None
  /\ fst (PollStackEvents "demo" StackWaiterTypeDelete
            (world [Reply_error err_throttling] [Some None])) = Returns None
  /\ fst (PollStackEvents "demo" StackWaiterTypeUpdate
            (world [Reply_error err_plain] [Some None])) = Panics
  /\ fst (PollStackEvents "demo" StackWaiterTypeDelete
            (world [Reply_error err_no_stack] [Some None])) = Returns None
  /\ fst (PollStackEvents "demo" StackWaiterTypeCreate
            (world [Reply_error err_throttling] [Some None]))
     = Returns (Some err_throttling).
Proof. repeat split. Qed.

(** *** The boundary of the watermark *)

Lemma sort_Slice_one {A : Type} (less : A -> A -> bool) (a : A) :
  sort_Slice less [a] = [a].
Proof.
  apply Permutation_length_1_inv, sort_Slice_perm.
Qed.

(** C2, on the code.  An event whose timestamp is the instant asked for is
    returned: the test of [GetStackEvents] skips an event only when the
    instant is after (not at) the event's timestamp. *)
Theorem boundary_event_returned :
  fst (GetStackEvents "demo" 5 (world [Events_last [event_at "e5" 5]] []))
  = Returns ([event_at "e5" 5], None).
Proof.
  unfold GetStackEvents. simpl. run_client. now rewrite sort_Slice_one.
Qed.

(** [GetStackEvents] retains the events at or after the instant asked for,
    and all events when that instant is the zero time. *)
Lemma GetStackEvents_retained (stackName : string) (timestamp : time.Time)
    (w : World) (pages : list (list cf.StackEvent * string))
    (items : list cf.StackEvent) (rest : list Reply) :
  replies w = map Events_page pages ++ Events_last items :: rest ->
  exists events,
    fst (GetStackEvents stackName timestamp w) = Returns (events, None)
    /\ forall se, In se events <->
         In se (items_of pages ++ items)
         /\ (timestamp = 0 \/ timestamp <= cf.Timestamp se).
Proof.
  intros E. eexists. split; [exact (GetStackEvents_pages _ _ _ _ _ _ E)|].
  intros se. rewrite <- retained_spec, <- filter_In. split; intros H.
  - eapply Permutation_in; [apply Permutation_sym, sort_Slice_perm|exact H].
  - eapply Permutation_in; [apply sort_Slice_perm|exact H].
Qed.

(** *** The three aggregations *)

(** C7, as amended.  When a page fetch fails, [ListStacks] and
    [DescribeStacks] return the items of the pages fetched before it
    together with the error, and [GetStackEvents] returns no event with
    the error.  When no fetch fails, [ListStacks] and [DescribeStacks]
    return the items of all pages in page order, while [GetStackEvents]
    returns the events it retains from all pages rearranged ascending by
    timestamp. *)
Theorem aggregation_results (w : World) (rest : list Reply) :
  (forall (format : string) (statusFilter : list string) pages,
     (forall err,
        replies w = map ListStacks_page pages ++ Reply_error err :: rest ->
        fst (ListStacks format statusFilter w) = Returns (items_of pages, Some err))
     /\ (forall items,
        replies w = map ListStacks_page pages ++ ListStacks_last items :: rest ->
        fst (ListStacks format statusFilter w)
        = Returns (items_of pages ++ items, None)))
  /\ (forall pages,
     (forall err,
        replies w = map DescribeStacks_page pages ++ Reply_error err :: rest ->
        fst (DescribeStacks w) = Returns (items_of pages, Some err))
     /\ (forall items,
        replies w = map DescribeStacks_page pages ++ DescribeStacks_last items :: rest ->
        fst (DescribeStacks w) = Returns (items_of pages ++ items, None)))
  /\ (forall (stackName : string) (timestamp : time.Time) pages,
     (forall err,
        replies w = map Events_page pages ++ Reply_error err :: rest ->
        fst (GetStackEvents stackName timestamp w) = Returns ([], Some err))
     /\ (forall items,
        replies w = map Events_page pages ++ Events_last items :: rest ->
        exists events,
          fst (GetStackEvents stackName timestamp w) = Returns (events, None)
          /\ Permutation (filter (retained timestamp) (items_of pages ++ items)) events
          /\ ascending events)).
Proof.
  split; [|split].
  - intros format statusFilter pages. unfold ListStacks.
    split; intros x E;
      match goal with
      | |- fst (ListStacks_loop ?f _ ?t ?a w) = _ =>
        destruct (ListStacks_loop_pages statusFilter _ rest pages f t a w E) as [H1 H2];
          [rewrite E, length_app, length_map; simpl; lia|]
      end.
    + exact (H2 x eq_refl).
    + exact (H1 x eq_refl).
  - intros pages. unfold DescribeStacks.
    split; intros x E;
      match goal with
      | |- fst (DescribeStacks_loop ?f ?t ?a w) = _ =>
        destruct (DescribeStacks_loop_pages _ rest pages f t a w E) as [H1 H2];
          [rewrite E, length_app, length_map; simpl; lia|]
      end.
    + exact (H2 x eq_refl).
    + exact (H1 x eq_refl).
  - intros stackName timestamp pages. split.
    + intros err E. now apply GetStackEvents_pages_error with (pages := pages) (rest := rest).
    + intros items E. eexists.
      split; [exact (GetStackEvents_pages _ _ _ _ _ _ E)|].
      split; [apply sort_Slice_perm|apply sort_Slice_ascending].
Qed.

(** ** The requests of the aggregations *)

Lemma status_filter_field (statusFilter : list string) :
  (if 0 <? len statusFilter then statusFilter else []) = statusFilter.
Proof. destruct statusFilter; reflexivity. Qed.

Lemma after_step (w : World) (c : Call) (rs rest : list Reply) (made : list Call) :
  after (set_replies rs (log_request c w)) rest made (signals w) [] []
  = after w rest (c :: made) (signals w) [] [].
Proof. unfold after. simpl. now rewrite <- app_assoc. Qed.

Lemma after_last (w : World) (c : Call) (rest : list Reply) :
  set_replies rest (log_request c w) = after w rest [c] (signals w) [] [].
Proof. unfold after, set_replies, log_request. simpl. now rewrite !app_nil_r. Qed.

(** The whole run of the loop of [ListStacks] over a script of pages. *)
Lemma ListStacks_loop_run (statusFilter : list string) (final : Reply)
    (rest : list Reply) (pages : list (list cf.StackSummary * string)) :
  forall (fuel : nat) (nextToken : option string) (acc : list cf.StackSummary) (w : World),
    replies w = map ListStacks_page pages ++ final :: rest ->
    (List.length pages < fuel)%nat ->
    let w' := after w rest
                (ListStacks_requests statusFilter
                   (nextToken :: map (fun p => Some (snd p)) pages))
                (signals w) [] [] in
    (forall items, final = ListStacks_last items ->
       ListStacks_loop fuel statusFilter nextToken acc w
       = (Returns (acc ++ items_of pages ++ items, None), w'))
    /\ (forall err, final = Reply_error err ->
       ListStacks_loop fuel statusFilter nextToken acc w
       = (Returns (acc ++ items_of pages, Some err), w')).
Proof.
  induction pages as [|p pages IH]; intros fuel tok acc w E F;
    (destruct fuel as [|fuel]; [simpl in F; lia|]); simpl in E.
  - split; intros x ->; simpl; run_client; rewrite E; simpl;
      rewrite status_filter_field, after_last.
    + now rewrite append_if_nonempty.
    + now rewrite app_nil_r.
  - simpl. run_client. rewrite E. simpl.
    rewrite append_if_nonempty, status_filter_field.
    match goal with
    | |- context [ListStacks_loop fuel statusFilter ?t ?a ?w1] =>
      destruct (IH fuel t a w1) as [IH1 IH2]; [reflexivity|simpl in F; lia|]
    end.
    simpl in IH1, IH2. rewrite after_step in IH1, IH2.
    unfold items_of in *. simpl.
    split; intros x Ex; [rewrite (IH1 x Ex)|rewrite (IH2 x Ex)];
      now rewrite <- ?app_assoc.
Qed.

(** The whole run of the loop of [DescribeStacks]. *)
Lemma DescribeStacks_loop_run (final : Reply)
    (rest : list Reply) (pages : list (list (option cf.Stack) * string)) :
  forall (fuel : nat) (nextToken : option string) (acc : list (option cf.Stack)) (w : World),
    replies w = map DescribeStacks_page pages ++ final :: rest ->
    (List.length pages < fuel)%nat ->
    let w' := after w rest
                (DescribeStacks_requests (nextToken :: map (fun p => Some (snd p)) pages))
                (signals w) [] [] in
    (forall items, final = DescribeStacks_last items ->
       DescribeStacks_loop fuel nextToken acc w
       = (Returns (acc ++ items_of pages ++ items, None), w'))
    /\ (forall err, final = Reply_error err ->
       DescribeStacks_loop fuel nextToken acc w
       = (Returns (acc ++ items_of pages, Some err), w')).
Proof.
  induction pages as [|p pages IH]; intros fuel tok acc w E F;
    (destruct fuel as [|fuel]; [simpl in F; lia|]); simpl in E.
  - split; intros x ->; simpl; run_client; rewrite E; simpl; rewrite after_last.
    + now rewrite append_if_nonempty.
    + now rewrite app_nil_r.
  - simpl. run_client. rewrite E. simpl. rewrite append_if_nonempty.
    match goal with
    | |- context [DescribeStacks_loop fuel ?t ?a ?w1] =>
      destruct (IH fuel t a w1) as [IH1 IH2]; [reflexivity|simpl in F; lia|]
    end.
    simpl in IH1, IH2. rewrite after_step in IH1, IH2.
    unfold items_of in *. simpl.
    split; intros x Ex; [rewrite (IH1 x Ex)|rewrite (IH2 x Ex)];
      now rewrite <- ?app_assoc.
Qed.

(** The whole run of the loop of [GetStackEvents]. *)
Lemma GetStackEvents_loop_run (stackName : string) (timestamp : time.Time)
    (final : Reply) (rest : list Reply) (pages : list (list cf.StackEvent * string)) :
  forall (fuel : nat) (nextToken : option string) (acc : list cf.StackEvent) (w : World),
    replies w = map Events_page pages ++ final :: rest ->
    (List.length pages < fuel)%nat ->
    let w' := after w rest
                (Events_requests stackName
                   (nextToken :: map (fun p => Some (snd p)) pages))
                (signals w) [] [] in
    (forall items, final = Events_last items ->
       GetStackEvents_loop fuel stackName timestamp
         {| cf.Events_NextToken := nextToken; cf.Events_StackName := stackName |} acc w
       = (Returns (sort_Slice less_Timestamp
                     (acc ++ filter (retained timestamp) (items_of pages ++ items)), None),
          w'))
    /\ (forall err, final = Reply_error err ->
       GetStackEvents_loop fuel stackName timestamp
         {| cf.Events_NextToken := nextToken; cf.Events_StackName := stackName |} acc w
       = (Returns ([], Some err), w')).
Proof.
  induction pages as [|p pages IH]; intros fuel tok acc w E F;
    (destruct fuel as [|fuel]; [simpl in F; lia|]); simpl in E.
  - split; intros x ->; simpl; run_client; rewrite E; simpl; rewrite after_last;
      [|reflexivity].
    now rewrite record_events_filter.
  - simpl. run_client. rewrite E. simpl. rewrite record_events_filter.
    match goal with
    | |- context [GetStackEvents_loop fuel stackName timestamp
                    {| cf.Events_NextToken := ?t; cf.Events_StackName := _ |} ?a ?w1] =>
      destruct (IH fuel t a w1) as [IH1 IH2]; [reflexivity|simpl in F; lia|]
    end.
    simpl in IH1, IH2. rewrite after_step in IH1, IH2.
    split; intros x Ex; [rewrite (IH1 x Ex)|now rewrite (IH2 x Ex)].
    unfold items_of. simpl. now rewrite <- ?app_assoc, !filter_app, <- ?app_assoc.
Qed.

Lemma enough_fuel {A : Type} (w : World) (pages : list A) (f : A -> Reply)
    (final : Reply) (rest : list Reply) :
  replies w = map f pages ++ final :: rest ->
  (List.length pages < S (List.length (replies w)))%nat.
Proof. intros E. rewrite E, length_app, length_map. simpl. lia. Qed.

(** X1. [ListStacks] sends one request per page it fetches: the first
    without a token, each next one with the token of the page before, all
    with the caller's status filter.  After the last page or the first
    error it makes no further call (the answers that follow stay in the
    script), and it writes nothing. *)
Theorem ListStacks_request_chain (format : string) (statusFilter : list string)
    (w : World) (pages : list (list cf.StackSummary * string))
    (final : Reply) (rest : list Reply) :
  replies w = map ListStacks_page pages ++ final :: rest ->
  (exists items, final = ListStacks_last items) \/ (exists err, final = Reply_error err) ->
  snd (ListStacks format statusFilter w)
  = after w rest (ListStacks_requests statusFilter (tokens_of pages)) (signals w) [] [].
Proof.
  intros E H. unfold ListStacks, tokens_of.
  destruct (ListStacks_loop_run statusFilter final rest pages
              (S (List.length (replies w))) None [] w E
              (enough_fuel w pages ListStacks_page final rest E)) as [H1 H2].
  destruct H as [[items ->]|[err ->]].
  - now rewrite (H1 items eq_refl).
  - now rewrite (H2 err eq_refl).
Qed.

(** X2. [DescribeStacks] sends one request per page it fetches, none with a
    stack name: the first without a token, each next one with the token of
    the page before; it stops at the last page or the first error and
    writes nothing. *)
Theorem DescribeStacks_request_chain
    (w : World) (pages : list (list (option cf.Stack) * string))
    (final : Reply) (rest : list Reply) :
  replies w = map DescribeStacks_page pages ++ final :: rest ->
  (exists items, final = DescribeStacks_last items) \/ (exists err, final = Reply_error err) ->
  snd (DescribeStacks w)
  = after w rest (DescribeStacks_requests (tokens_of pages)) (signals w) [] [].
Proof.
  intros E H. unfold DescribeStacks, tokens_of.
  destruct (DescribeStacks_loop_run final rest pages
              (S (List.length (replies w))) None [] w E
              (enough_fuel w pages DescribeStacks_page final rest E)) as [H1 H2].
  destruct H as [[items ->]|[err ->]].
  - now rewrite (H1 items eq_refl).
  - now rewrite (H2 err eq_refl).
Qed.

(** X3. [GetStackEvents] names the stack in every request it sends, the
    first without a token and each next one with the token of the page
    before; it stops at the last page or the first error, writes nothing
    and leaves the waiter's channel alone. *)
Theorem GetStackEvents_request_chain (stackName : string) (timestamp : time.Time)
    (w : World) (pages : list (list cf.StackEvent * string))
    (final : Reply) (rest : list Reply) :
  replies w = map Events_page pages ++ final :: rest ->
  (exists items, final = Events_last items) \/ (exists err, final = Reply_error err) ->
  snd (GetStackEvents stackName timestamp w)
  = after w rest (Events_requests stackName (tokens_of pages)) (signals w) [] [].
Proof.
  intros E H. unfold GetStackEvents, tokens_of.
  destruct (GetStackEvents_loop_run stackName timestamp final rest pages
              (S (List.length (replies w))) None [] w E
              (enough_fuel w pages Events_page final rest E)) as [H1 H2].
  destruct H as [[items ->]|[err ->]].
  - now rewrite (H1 items eq_refl).
  - now rewrite (H2 err eq_refl).
Qed.

(** ** Creating and updating a stack *)

Lemma ValidateTemplate_valid (tpl : list byte) (url : string) (w : World) :
  0 < len tpl \/ 0 < strlen url ->
  len tpl <= maxTemplateLength ->
  ValidateTemplate tpl url w = Client.ValidateTemplate (validate_input tpl url) w.
Proof.
  intros H0 H1. unfold validate_input.
  destruct (Z.ltb_spec 0 (len tpl)) as [L|L].
  - now apply ValidateTemplate_body.
  - destruct H0 as [H0|H0]; [lia|].
    assert (E0 : len tpl = 0) by (unfold len in *; lia).
    unfold ValidateTemplate. rewrite E0. simpl.
    assert (E1 : (strlen url =? 0) = false) by lia.
    assert (E2 : (0 <? strlen url) = true) by lia.
    rewrite E1, E2. reflexivity.
Qed.

Lemma after_two (w : World) (c1 c2 : Call) (r : Reply) (rest : list Reply) :
  set_replies rest (log_request c2 (set_replies (r :: rest) (log_request c1 w)))
  = after w rest [c1; c2] (signals w) [] [].
Proof.
  unfold after, set_replies, log_request. simpl.
  now rewrite <- app_assoc, !app_nil_r.
Qed.

(** X4. Once the remote validation accepts the template, [CreateStack] and
    [UpdateStack] make exactly one more call, the create or the update,
    whose input carries the capabilities that the validation returned, the
    caller's parameters and the caller's tags after [tagPkgStamp]; whatever
    that call answers is the result.  With no body, the input carries the
    URL and no body. *)
Theorem change_threads_validation (name : string) (params tags : gomap)
    (tpl : list byte) (url : string) (w : World)
    (valid : cf.ValidateTemplateOutput) (r : Reply) (rest : list Reply) :
  0 < len tpl \/ 0 < strlen url ->
  len tpl <= maxTemplateLength ->
  replies w = Reply_ValidateTemplate valid :: r :: rest ->
  let input := change_input name params (tagPkgStamp tags) (cf.Capabilities valid) tpl url in
  let validated := Call_ValidateTemplate (validate_input tpl url) in
  (forall out, r = Reply_CreateStack out ->
     CreateStack name params tags tpl url w
     = (Returns (Some out, None),
        after w rest [validated; Call_CreateStack input] (signals w) [] []))
  /\ (forall out, r = Reply_UpdateStack out ->
     UpdateStack name params tags tpl url w
     = (Returns (Some out, None),
        after w rest [validated; Call_UpdateStack input] (signals w) [] []))
  /\ (forall err, r = Reply_error err ->
     CreateStack name params tags tpl url w
     = (Returns (None, Some err),
        after w rest [validated; Call_CreateStack input] (signals w) [] [])
     /\ UpdateStack name params tags tpl url w
        = (Returns (None, Some err),
           after w rest [validated; Call_UpdateStack input] (signals w) [] []))
  /\ cf.Change_Capabilities input = cf.Capabilities valid
  /\ cf.Change_Tags input = TagSlice (tagPkgStamp tags)
  /\ cf.Change_Parameters input = ParamSlice params
  /\ (len tpl = 0 ->
      cf.Change_TemplateBody input = None /\ cf.Change_TemplateURL input = Some url).
Proof.
  intros H0 H1 E input validated.
  assert (EC : forall k : _ -> M (option cf.ChangeStackOutput * option error),
             bind (ValidateTemplate tpl url) k w
             = k (Some valid, None)
                 (set_replies (r :: rest) (log_request validated w))).
  { intros k. unfold bind. rewrite (ValidateTemplate_valid tpl url w H0 H1).
    run_client. rewrite E. reflexivity. }
  repeat split.
  - intros out ->. unfold CreateStack. rewrite EC. run_client.
    fold input. now rewrite after_two.
  - intros out ->. unfold UpdateStack. rewrite EC. run_client.
    fold input. now rewrite after_two.
  - subst r. unfold CreateStack. rewrite EC. run_client.
    fold input. now rewrite after_two.
  - subst r. unfold UpdateStack. rewrite EC. run_client.
    fold input. now rewrite after_two.
  - subst input. unfold change_input. simpl. now rewrite H.
  - subst input. unfold change_input. simpl. now rewrite H.
Qed.

(** X5. When the remote validation rejects the template, [CreateStack] and
    [UpdateStack] return its error and make no create or update call: the
    validation is the only request and the answers that follow stay in the
    script. *)
Theorem change_stops_on_rejection (name : string) (params tags : gomap)
    (tpl : list byte) (url : string) (w : World) (err : error) (rest : list Reply) :
  0 < len tpl \/ 0 < strlen url ->
  len tpl <= maxTemplateLength ->
  replies w = Reply_error err :: rest ->
  let w' := after w rest [Call_ValidateTemplate (validate_input tpl url)] (signals w) [] [] in
  CreateStack name params tags tpl url w = (Returns (None, Some err), w')
  /\ UpdateStack name params tags tpl url w = (Returns (None, Some err), w').
Proof.
  intros H0 H1 E w'.
  assert (EC : ValidateTemplate tpl url w = (Returns (None, Some err), w')).
  { rewrite (ValidateTemplate_valid tpl url w H0 H1).
    run_client. rewrite E. simpl. now rewrite after_last. }
  unfold CreateStack, UpdateStack, bind. rewrite EC. split; reflexivity.
Qed.

(** ** More on polling *)

(** The loop in any world: what it prints is ascending and after the
    watermark it starts from. *)
Lemma PollStackEvents_loop_order (stackName waiterType : string) :
  forall (fuel : nat) (timestamp : time.Time) (w : World),
    let r := PollStackEvents_loop fuel stackName waiterType timestamp w in
    exists printed,
      shown (snd r) = shown w ++ printed
      /\ stdout (snd r)
         = stdout w ++ map (event_line stackName waiterType) printed
      /\ clock (snd r) = clock w
      /\ ascending printed
      /\ Forall (fun evnt => timestamp < cf.Timestamp evnt) printed.
Proof.
  induction fuel as [|fuel IH]; intros t w; simpl.
  - exists []. rewrite !app_nil_r. repeat split; constructor.
  - destruct (PollStackEvents_turn_spec stackName waiterType t w)
      as (batch & H1 & H2 & H3 & H4 & H5 & _ & H7).
    unfold bind.
    destruct (PollStackEvents_turn stackName waiterType t w)
      as [[[t' [err|]]| |] w1]; simpl in *;
      try (exists batch; repeat split; auto; fail).
    destruct (H7 t' None eq_refl) as [-> _].
    destruct (IH (latest t batch) w1) as (printed & P1 & P2 & P3 & P4 & P5).
    pose proof (latest_le t batch) as [L1 L2].
    exists (batch ++ printed).
    rewrite P1, P2, P3, H1, H2, H3, map_app, <- !app_assoc.
    repeat split.
    + apply ascending_app with (t := latest t batch); auto.
    + apply Forall_app. split; [exact H4|].
      eapply Forall_impl; [|exact P5]. simpl. intros; lia.
Qed.

(** X6. However a wait goes (it returns, it panics, or the script ends
    first), the events that [PollStackEvents] has printed are in
    non-decreasing timestamp order, and each is strictly later than
    [time.Now()] at the start of the wait: an event at or before that
    instant is never shown. *)
Theorem printed_in_order_after_start (stackName waiterType : string) (w : World) :
  let r := PollStackEvents stackName waiterType w in
  exists printed,
    shown (snd r) = shown w ++ printed
    /\ stdout (snd r) = stdout w ++ map (event_line stackName waiterType) printed
    /\ ascending printed
    /\ Forall (fun evnt => clock w < cf.Timestamp evnt) printed.
Proof.
  intros r. subst r. unfold PollStackEvents, Now, bind.
  destruct (PollStackEvents_loop_order stackName waiterType
              (S (List.length (signals w))) (clock w) w)
    as (printed & P1 & P2 & _ & P4 & P5).
  now exists printed.
Qed.

Lemma write_lines_after (stackName waiterType : string) (batch : list cf.StackEvent) :
  forall (w : World) (rest : list Reply) (made : list Call)
         (ss : list (option (option error))),
    write_lines stackName waiterType batch (after w rest made ss [] [])
    = after w rest made ss (map (event_line stackName waiterType) batch) batch.
Proof.
  intros w rest made ss.
  assert (G : forall lines events,
             write_lines stackName waiterType batch (after w rest made ss lines events)
             = after w rest made ss
                 (lines ++ map (event_line stackName waiterType) batch)
                 (events ++ batch)).
  { induction batch as [|e batch IH]; intros lines events; simpl.
    - now rewrite !app_nil_r.
    - unfold write_lines in *. simpl.
      replace (write_line e (event_line stackName waiterType e)
                 (after w rest made ss lines events))
        with (after w rest made ss
                (lines ++ [event_line stackName waiterType e]) (events ++ [e])).
      + rewrite IH. now rewrite <- !app_assoc.
      + unfold after, write_line. simpl. now rewrite !app_assoc. }
  apply G.
Qed.

(** A turn whose fetch succeeds prints the printable events of the fetch
    and only then looks at the waiter's channel. *)
Lemma PollStackEvents_turn_on_batch (stackName waiterType : string)
    (timestamp : time.Time) (w : World) (pages : list (list cf.StackEvent * string))
    (items : list cf.StackEvent) (rest : list Reply) :
  replies w = map Events_page pages ++ Events_last items :: rest ->
  let batch :=
    printable timestamp
      (sort_Slice less_Timestamp
         (filter (retained timestamp) (items_of pages ++ items))) in
  PollStackEvents_turn stackName waiterType timestamp w
  = end_turn (latest timestamp batch) None
      (after w rest (Events_requests stackName (tokens_of pages)) (signals w)
         (map (event_line stackName waiterType) batch) batch).
Proof.
  intros E batch. unfold PollStackEvents_turn.
  assert (G : GetStackEvents stackName timestamp w
              = (Returns (sort_Slice less_Timestamp
                            (filter (retained timestamp) (items_of pages ++ items)), None),
                 after w rest (Events_requests stackName (tokens_of pages))
                   (signals w) [] [])).
  { unfold GetStackEvents, tokens_of.
    destruct (GetStackEvents_loop_run stackName timestamp (Events_last items) rest pages
                (S (List.length (replies w))) None [] w E
                (enough_fuel w pages Events_page (Events_last items) rest E)) as [H1 _].
    exact (H1 items eq_refl). }
  rewrite (bind_Returns _ _ _ _ _ G).
  set (events := sort_Slice less_Timestamp
                   (filter (retained timestamp) (items_of pages ++ items))) in *.
  set (w1 := after w rest (Events_requests stackName (tokens_of pages)) (signals w) [] []).
  assert (P : (if 0 <? len events
               then bind (print_events stackName waiterType timestamp events timestamp)
                      (fun tmpTime => ret (tmpTime, None))
               else ret (timestamp, None)) w1
              = (Returns (latest timestamp batch, @None (option error)),
                 write_lines stackName waiterType batch w1)).
  { subst batch. destruct (0 <? len events) eqn:El.
    - unfold bind. rewrite print_events_latest. reflexivity.
    - rewrite (printable_empty timestamp events El). reflexivity. }
  rewrite (bind_Returns _ _ _ _ _ P).
  subst w1. now rewrite write_lines_after.
Qed.

(** X7. The waiter's channel is looked at only after the fetch of the turn
    is printed.  When the first fetch succeeds and the waiter has already
    sent its result, [PollStackEvents] still prints the events of that
    fetch that are later than the start instant, in ascending order, and
    then returns the waiter's result. *)
Theorem final_batch_printed_before_return (stackName waiterType : string)
    (w : World) (pages : list (list cf.StackEvent * string))
    (items : list cf.StackEvent) (rest : list Reply)
    (result : option error) (ss : list (option (option error))) :
  replies w = map Events_page pages ++ Events_last items :: rest ->
  signals w = Some result :: ss ->
  let batch :=
    printable (clock w)
      (sort_Slice less_Timestamp
         (filter (retained (clock w)) (items_of pages ++ items))) in
  PollStackEvents stackName waiterType w
  = (Returns result,
     after w rest (Events_requests stackName (tokens_of pages)) ss
       (map (event_line stackName waiterType) batch) batch).
Proof.
  intros E Es batch. unfold PollStackEvents, Now. unfold bind at 1.
  rewrite Es. simpl List.length. cbn [PollStackEvents_loop]. unfold bind.
  rewrite (PollStackEvents_turn_on_batch stackName waiterType (clock w) w pages items rest E).
  fold batch. unfold end_turn, select_stop, bind, ret. simpl. rewrite Es. reflexivity.
Qed.

Lemma after_turn (w : World) (c : Call) (rs rest : list Reply) (made : list Call)
    (ss ss' : list (option (option error))) :
  after (set_signals ss (set_replies rs (log_request c w))) rest made ss' [] []
  = after w rest (c :: made) ss' [] [].
Proof. unfold after. simpl. now rewrite <- app_assoc. Qed.

(** The loop of a delete wait while the fetches fail with validation
    errors. *)
Lemma PollStackEvents_loop_delete (stackName : string) (rest : list Reply)
    (result : option error) (ss : list (option (option error))) :
  forall (n : nat) (errs : list error) (fuel : nat) (timestamp : time.Time) (w : World),
    Forall (fun err => is_validation_error err = true) errs ->
    List.length errs = S n ->
    replies w = map Reply_error errs ++ rest ->
    signals w = repeat None n ++ Some result :: ss ->
    (n < fuel)%nat ->
    PollStackEvents_loop fuel stackName StackWaiterTypeDelete timestamp w
    = (Returns result,
       after w rest (repeat (events_request stackName) (S n)) ss [] []).
Proof.
  induction n as [|n IH]; intros errs fuel t w V L E Es F;
    (destruct fuel as [|fuel]; [lia|]);
    (destruct errs as [|err errs]; [discriminate L|]);
    inversion V as [|? ? Verr V']; subst;
    (destruct err as [code message|text]; [|discriminate Verr]);
    simpl in E, Es; cbn [PollStackEvents_loop]; unfold bind;
    rewrite (PollStackEvents_turn_on_error stackName StackWaiterTypeDelete t _ _ w E);
    simpl; unfold end_turn, select_stop, Sleep, bind, ret; simpl; rewrite Es.
  - destruct errs; [|discriminate L]. simpl.
    unfold after, set_signals, set_replies, log_request. simpl.
    now rewrite !app_nil_r.
  - match goal with
    | |- PollStackEvents_loop fuel _ _ _ ?w2 = _ =>
      rewrite (IH errs fuel t w2 V'); try reflexivity; try lia
    end.
    + now rewrite after_turn.
    + simpl in L. lia.
Qed.

(** X8. During a delete wait, fetches that fail with a validation error of
    the service (the stack is gone) do not end the wait: it goes on with one
    fetch per turn, prints nothing, and returns what the waiter sends. *)
Theorem delete_wait_tolerates_missing_stack (stackName : string) (w : World)
    (n : nat) (errs : list error) (rest : list Reply)
    (result : option error) (ss : list (option (option error))) :
  Forall (fun err => is_validation_error err = true) errs ->
  List.length errs = S n ->
  replies w = map Reply_error errs ++ rest ->
  signals w = repeat None n ++ Some result :: ss ->
  PollStackEvents stackName StackWaiterTypeDelete w
  = (Returns result,
     after w rest (repeat (events_request stackName) (S n)) ss [] []).
Proof.
  intros V L E Es. unfold PollStackEvents, Now. unfold bind at 1.
  apply PollStackEvents_loop_delete with (errs := errs); auto.
  rewrite Es, length_app, repeat_length. simpl. lia.
Qed.

(** What a fetch consumes, in any world: a prefix of the script, and
    nothing of the signals; an error it returns is one of the script's. *)
Lemma GetStackEvents_loop_consumes (stackName : string) (timestamp : time.Time) :
  forall (fuel : nat) (input : cf.DescribeStackEventsInput)
         (acc : list cf.StackEvent) (w : World),
    let r := GetStackEvents_loop fuel stackName timestamp input acc w in
    (exists pre, replies w = pre ++ replies (snd r))
    /\ signals (snd r) = signals w
    /\ forall events err,
         fst r = Returns (events, Some err) -> In (Reply_error err) (replies w).
Proof.
  induction fuel as [|fuel IH]; intros input acc w; simpl.
  - split; [now exists []|]. split; [reflexivity|discriminate].
  - run_client. destruct (replies w) as [|r rs] eqn:E; simpl.
    + split; [now exists []|]. split; [reflexivity|discriminate].
    + destruct r; simpl;
        try (split; [now exists [r]; eexists; reflexivity|];
             split; [reflexivity|]; intros events e H; discriminate H).
      * split; [now exists [Reply_error err]|]. split; [reflexivity|].
        intros events e H. inversion H; subst. now left.
      * split; [eexists [_]; reflexivity|]. split; [reflexivity|discriminate].
      * split; [eexists [_]; reflexivity|]. split; [reflexivity|discriminate].
      * split; [eexists [_]; reflexivity|]. split; [reflexivity|discriminate].
      * split; [eexists [_]; reflexivity|]. split; [reflexivity|discriminate].
      * split; [eexists [_]; reflexivity|]. split; [reflexivity|discriminate].
      * destruct (cf.Events_out_NextToken output) as [tok|].
        -- match goal with
           | |- context [GetStackEvents_loop fuel stackName timestamp ?i ?a ?w1] =>
             destruct (IH i a w1) as ([pre P] & S1 & S2)
           end.
           simpl in P, S1. split; [|split].
           ++ exists (Reply_DescribeStackEvents output :: pre). simpl. now rewrite <- P.
           ++ exact S1.
           ++ intros events e H. right. exact (S2 events e H).
        -- simpl. split; [eexists [_]; reflexivity|]. split; [reflexivity|discriminate].
Qed.

Lemma from_world_later (w w1 : World) (ret : option error) :
  (exists pre, replies w = pre ++ replies w1) ->
  (exists pre, signals w = pre ++ signals w1) ->
  from_world w1 ret -> from_world w ret.
Proof.
  intros [pr Er] [ps Es] [H|[err [-> H]]]; [left|right].
  - rewrite Es. apply in_or_app. now right.
  - exists err. split; [reflexivity|]. rewrite Er. apply in_or_app. now right.
Qed.

Lemma end_turn_from (timestamp : time.Time) (w : World) :
  let r := end_turn timestamp None w in
  replies (snd r) = replies w
  /\ (exists pre, signals w = pre ++ signals (snd r))
  /\ forall t' ret, fst r = Returns (t', Some ret) -> In (Some ret) (signals w).
Proof.
  unfold end_turn, select_stop, Sleep, bind, ret.
  destruct (signals w) as [|[err|] ss] eqn:E; simpl.
  - split; [reflexivity|]. split; [exists []; now rewrite E|discriminate].
  - split; [reflexivity|]. split; [now exists [Some err]|].
    intros t' r H. inversion H; subst. now left.
  - split; [reflexivity|]. split; [now exists [None]|discriminate].
Qed.

Lemma PollStackEvents_turn_from (stackName waiterType : string)
    (timestamp : time.Time) (w : World) :
  let r := PollStackEvents_turn stackName waiterType timestamp w in
  (exists pre, replies w = pre ++ replies (snd r))
  /\ (exists pre, signals w = pre ++ signals (snd r))
  /\ forall t' ret, fst r = Returns (t', Some ret) -> from_world w ret.
Proof.
  intros r.
  assert (R : r = PollStackEvents_turn stackName waiterType timestamp w) by reflexivity.
  clearbody r. unfold PollStackEvents_turn in R. unfold bind in R at 1.
  pose proof (GetStackEvents_loop_consumes stackName timestamp
                (S (List.length (replies w)))
                {| cf.Events_NextToken := None; cf.Events_StackName := stackName |}
                [] w) as G.
  fold (GetStackEvents stackName timestamp w) in G. simpl in G.
  destruct (GetStackEvents stackName timestamp w) as [[[events [err|]]| |] w1];
    simpl in G; destruct G as (G1 & G2 & G3); subst r.
  - (* the fetch fails *)
    specialize (G3 events err eq_refl).
    remember (waiterType =? StackWaiterTypeDelete)%string as deleting.
    destruct err as [code message|text]; simpl.
    + destruct deleting; simpl.
      * match goal with
        | |- context [snd ?X] => change X with (end_turn timestamp None w1)
        end.
        pose proof (end_turn_from timestamp w1) as (T1 & T2 & T3).
        rewrite T1. split; [exact G1|]. rewrite <- G2. split; [exact T2|].
        intros t' r H. left. rewrite <- G2. exact (T3 t' r H).
      * unfold bind, ret. simpl.
        destruct (code =? "ValidationError")%string; simpl.
        -- match goal with
           | |- context [snd ?X] => change X with (end_turn timestamp None w1)
           end.
           pose proof (end_turn_from timestamp w1) as (T1 & T2 & T3).
           rewrite T1. split; [exact G1|]. rewrite <- G2. split; [exact T2|].
           intros t' r H. left. rewrite <- G2. exact (T3 t' r H).
        -- unfold bind. simpl.
           split; [exact G1|]. split; [exists []; now rewrite G2|].
           intros t' r H. inversion H; subst. right.
           exists (awserr_Error code message). now split.
    + rewrite orb_true_r. unfold bind. simpl.
      split; [exact G1|]. split; [exists []; now rewrite G2|discriminate].
  - (* the fetch returns a batch *)
    assert (P : (if 0 <? len events
                 then bind (print_events stackName waiterType timestamp events timestamp)
                        (fun tmpTime => ret (tmpTime, None))
                 else ret (timestamp, None)) w1
                = (Returns (latest timestamp (printable timestamp events),
                            @None (option error)),
                   write_lines stackName waiterType (printable timestamp events) w1)).
    { destruct (0 <? len events) eqn:El.
      - unfold bind. rewrite print_events_latest. reflexivity.
      - rewrite (printable_empty timestamp events El). reflexivity. }
    rewrite (bind_Returns _ _ _ _ _ P). clear P.
    pose proof (write_lines_fields stackName waiterType (printable timestamp events) w1)
      as (_ & _ & W3 & W4 & _ & _).
    match goal with
    | |- context [snd ?X] =>
      change X with
        (end_turn (latest timestamp (printable timestamp events)) None
           (write_lines stackName waiterType (printable timestamp events) w1))
    end.
    pose proof (end_turn_from (latest timestamp (printable timestamp events))
                  (write_lines stackName waiterType (printable timestamp events) w1))
      as (T1 & T2 & T3).
    rewrite T1, W3. split; [exact G1|].
    rewrite W4, G2 in T2, T3. split; [exact T2|].
    intros t' r H. left. exact (T3 t' r H).
  - simpl. split; [exact G1|]. split; [exists []; now rewrite G2|discriminate].
  - simpl. split; [exact G1|]. split; [exists []; now rewrite G2|discriminate].
Qed.

Lemma PollStackEvents_loop_from (stackName waiterType : string) :
  forall (fuel : nat) (timestamp : time.Time) (w : World) (ret : option error),
    fst (PollStackEvents_loop fuel stackName waiterType timestamp w) = Returns ret ->
    from_world w ret.
Proof.
  induction fuel as [|fuel IH]; intros t w ret; simpl; [discriminate|].
  pose proof (PollStackEvents_turn_from stackName waiterType t w) as (T1 & T2 & T3).
  unfold bind.
  destruct (PollStackEvents_turn stackName waiterType t w)
    as [[[t' [err|]]| |] w1]; simpl in *; try discriminate.
  - intros H. inversion H; subst. exact (T3 t' ret eq_refl).
  - intros H. apply (from_world_later w w1 ret T1 T2). exact (IH t' w1 ret H).
Qed.

(** X9. What [PollStackEvents] returns is never of its own making: it is
    the value that the waiter sent, or the error of a fetch that failed.
    In particular it returns nil only when the waiter sent nil. *)
Theorem wait_result_provenance (stackName waiterType : string) (w : World)
    (result : option error) :
  fst (PollStackEvents stackName waiterType w) = Returns result ->
  (In (Some result) (signals w)
   \/ exists err, result = Some err /\ In (Reply_error err) (replies w))
  /\ (result = None -> In (Some None) (signals w)).
Proof.
  intros H. unfold PollStackEvents, Now in H. unfold bind in H at 1.
  apply PollStackEvents_loop_from in H.
  split; [exact H|].
  intros ->. destruct H as [H|[err [E _]]]; [exact H|discriminate E].
Qed.

(** ** Printing *)

Lemma print_lines_nil (w : World) : print_lines [] w = w.
Proof. destruct w. unfold print_lines. simpl. now rewrite app_nil_r. Qed.

Lemma print_lines_cons (line : string) (lines : list string) (w : World) :
  print_lines lines (print_line line w) = print_lines (line :: lines) w.
Proof. unfold print_lines, print_line. simpl. now rewrite <- app_assoc. Qed.

(** The loop of [utils.Print], up to the first object whose conversion
    fails. *)
Lemma Print_each_done (fn : object -> string * option error) (done s : list object) :
  forall w : World,
    Forall (fun o => converts fn o = true) done ->
    exists w1,
      Print_each fn (done ++ s) w = Print_each fn s w1
      /\ w1 = print_lines (map (fun o => fst (fn o)) done) w.
Proof.
  induction done as [|o done IH]; intros w F; simpl.
  - exists w. split; [reflexivity|]. now rewrite print_lines_nil.
  - inversion F as [|? ? Fo F']; subst. unfold converts in Fo.
    destruct (fn o) as [out [err|]] eqn:Eo; simpl in Fo; [discriminate|].
    unfold bind, Println. destruct (IH (print_line out w) F') as [w1 [E1 E2]].
    exists w1. split; [exact E1|]. now rewrite E2, print_lines_cons.
Qed.

(** X10. [utils.Print] prints its objects in order, one line each, up to the
    first one whose conversion fails: it returns that error, and the objects
    after it are not printed. *)
Theorem Print_stops_at_first_failure (format : string)
    (done later : list object) (bad : object) (err : error) (w : World) :
  Forall (fun o => converts (StdoutStrFactory format) o = true) done ->
  snd (StdoutStrFactory format bad) = Some err ->
  utils_Print format (done ++ bad :: later) w
  = (Returns (Some err),
     print_lines (map (fun o => fst (StdoutStrFactory format o)) done) w).
Proof.
  intros F B. unfold utils_Print.
  assert (L : (len (done ++ bad :: later) =? 0) = false).
  { apply Z.eqb_neq. unfold len. rewrite length_app. cbn [List.length]. lia. }
  rewrite L.
  destruct (Print_each_done (StdoutStrFactory format) done (bad :: later) w F)
    as [w1 [E1 ->]].
  rewrite E1. simpl.
  destruct (StdoutStrFactory format bad) as [out e]. simpl in B. subst e.
  reflexivity.
Qed.

(** X11. [utils.Print] given no object returns an error and prints nothing;
    given objects that all convert, it prints one line for each, in order,
    and returns nil. *)
Theorem Print_all_or_nothing (format : string) (s : list object) (w : World) :
  utils_Print format [] w = (Returns err_no_object, w)
  /\ (s <> [] ->
      Forall (fun o => converts (StdoutStrFactory format) o = true) s ->
      utils_Print format s w
      = (Returns None,
         print_lines (map (fun o => fst (StdoutStrFactory format o)) s) w)).
Proof.
  split; [reflexivity|]. intros N F. unfold utils_Print.
  assert (L : (len s =? 0) = false).
  { destruct s; [contradiction|]. apply Z.eqb_neq. unfold len. cbn [List.length]. lia. }
  rewrite L.
  destruct (Print_each_done (StdoutStrFactory format) s [] w F) as [w1 [E1 ->]].
  rewrite app_nil_r in E1. rewrite E1. reflexivity.
Qed.

Lemma plain_format (format : string) :
  (format =? FormatYaml)%string = false ->
  (format =? FormatJson)%string = false ->
  StdoutStrFactory format = toDefault.
Proof.
  intros Y J. unfold StdoutStrFactory. rewrite Y, J.
  now destruct (format =? FormatCmd)%string.
Qed.

(** X12. Every format other than yaml and json (cmd, the empty string, a
    misspelt name) is printed with the plain conversion, which cannot
    fail: each object is printed as [fmt.Sprintf("%s", _)] gives it, a string
    as itself, and nil is returned.  So [utils.InfoPrint] of a string prints
    that string. *)
Theorem plain_formats_never_fail (format : string) (s : list object) (w : World) :
  (format =? FormatYaml)%string = false ->
  (format =? FormatJson)%string = false ->
  s <> [] ->
  utils_Print format s w = (Returns None, print_lines (map Sprintf_s s) w)
  /\ utils_InfoPrint s w = (Returns None, print_lines (map Sprintf_s s) w)
  /\ forall line,
       utils_InfoPrint [obj_string line] w = (Returns None, print_line line w).
Proof.
  intros Y J N.
  assert (G : forall f, StdoutStrFactory f = toDefault ->
                        utils_Print f s w
                        = (Returns None, print_lines (map Sprintf_s s) w)).
  { intros f Ef. unfold utils_Print.
    assert (L : (len s =? 0) = false).
    { destruct s; [contradiction|]. apply Z.eqb_neq. unfold len. cbn [List.length]. lia. }
    rewrite L, Ef.
    destruct (Print_each_done toDefault s [] w) as [w1 [E1 ->]].
    - rewrite Forall_forall. reflexivity.
    - rewrite app_nil_r in E1. rewrite E1. reflexivity. }
  split; [exact (G format (plain_format format Y J))|].
  split; [exact (G FormatCmd eq_refl)|].
  intros line. reflexivity.
Qed.

(** ** Getting stacks *)

Lemma Exist_named (stackName : string) (w : World) :
  0 < strlen stackName ->
  Exist stackName w =
  match replies w with
  | [] => (Stuck, log_request (describe_request stackName) w)
  | r :: rs =>
    let w' := set_replies rs (log_request (describe_request stackName) w) in
    match r with
    | Reply_error _ => (Returns false, w')
    | Reply_DescribeStacks out =>
      match cf.Stacks out with
      | [] => (Panics, w')
      | Some _ :: _ => (Returns true, w')
      | None :: _ => (Returns false, w')
      end
    | _ => (Stuck, w')
    end
  end.
Proof.
  intros H. unfold Exist, bind. rewrite (DescribeStack_named stackName w H).
  destruct (replies w) as [|r rs]; [reflexivity|].
  destruct r; try reflexivity.
  simpl. destruct (cf.Stacks output) as [|[stack|] l]; reflexivity.
Qed.

Lemma print_line_after (line : string) (w : World) (rest : list Reply)
    (made : list Call) (ss : list (option (option error))) :
  print_line line (after w rest made ss [] []) = after w rest made ss [line] [].
Proof. unfold print_line, after. simpl. now rewrite !app_nil_r. Qed.

Lemma strlen_positive (stackName : string) :
  0 < strlen stackName -> (0 <? strlen stackName) = true.
Proof. intros H. now apply Z.ltb_lt. Qed.

(** X13. For a named stack whose describe call fails, or answers with a nil
    record, [stackGet] reports that the stack was not found: the error of
    the call is not what it returns.  It makes that one call and prints
    nothing. *)
Theorem stackGet_not_found (format stackName : string) (w : World)
    (r : Reply) (rest : list Reply) :
  0 < strlen stackName ->
  replies w = r :: rest ->
  (exists err, r = Reply_error err)
  \/ (exists out l, r = Reply_DescribeStacks out /\ cf.Stacks out = None :: l) ->
  stackGet format stackName w
  = (Returns (err_not_found stackName),
     after w rest [describe_request stackName] (signals w) [] []).
Proof.
  intros H E C. unfold stackGet. rewrite (strlen_positive stackName H).
  unfold bind. rewrite (Exist_named stackName w H), E.
  destruct C as [[err ->]|[out [l [-> Es]]]]; simpl; [|rewrite Es]; simpl;
    unfold ret; now rewrite after_last.
Qed.

(** X14. For a named stack that is found, [stackGet] describes the stack a
    second time and works from the second answer: it prints the first
    record of that answer in the format asked for, returns the error of the
    conversion when it fails, and returns the error of the second call when
    that call fails, in both cases printing nothing. *)
Theorem stackGet_describes_twice (format stackName : string) (w : World)
    (out1 : cf.DescribeStacksOutput) (stack1 : cf.Stack) (l1 : list (option cf.Stack))
    (r2 : Reply) (rest : list Reply) :
  0 < strlen stackName ->
  replies w = Reply_DescribeStacks out1 :: r2 :: rest ->
  cf.Stacks out1 = Some stack1 :: l1 ->
  let made := [describe_request stackName; describe_request stackName] in
  (forall err, r2 = Reply_error err ->
     stackGet format stackName w
     = (Returns (Some err), after w rest made (signals w) [] []))
  /\ (forall out2 stack2 l2,
        r2 = Reply_DescribeStacks out2 ->
        cf.Stacks out2 = stack2 :: l2 ->
        stackGet format stackName w
        = match StdoutStrFactory format (obj_stack stack2) with
          | (line, None) => (Returns None, after w rest made (signals w) [line] [])
          | (_, Some err) => (Returns (Some err), after w rest made (signals w) [] [])
          end).
Proof.
  intros H E Es made.
  assert (G : forall k : bool -> M (option error),
             bind (Exist stackName) k w
             = k true (set_replies (r2 :: rest)
                         (log_request (describe_request stackName) w))).
  { intros k. unfold bind. rewrite (Exist_named stackName w H), E. simpl.
    now rewrite Es. }
  split.
  - intros err ->. unfold stackGet. rewrite (strlen_positive stackName H), G.
    simpl. unfold bind. rewrite (DescribeStack_named stackName _ H). simpl.
    unfold ret. now rewrite after_two.
  - intros out2 stack2 l2 -> Es2. unfold stackGet.
    rewrite (strlen_positive stackName H), G.
    simpl. unfold bind at 1. rewrite (DescribeStack_named stackName _ H). simpl.
    rewrite Es2, after_two. unfold utils_Print, bind. simpl.
    destruct (StdoutStrFactory format (obj_stack stack2)) as [line [err|]]; simpl.
    + reflexivity.
    + unfold bind, Println, ret. now rewrite print_line_after.
Qed.

(** X15. With no name, [stackGet] aggregates all pages of stacks and prints
    them as one object, the stacks in page order.  When a page fetch fails
    it returns that error and prints nothing: the stacks of the pages
    fetched before are dropped. *)
Theorem stackGet_all (format : string) (w : World)
    (pages : list (list (option cf.Stack) * string)) (rest : list Reply) :
  let made := DescribeStacks_requests (tokens_of pages) in
  (forall err,
     replies w = map DescribeStacks_page pages ++ Reply_error err :: rest ->
     stackGet format "" w
     = (Returns (Some err), after w rest made (signals w) [] []))
  /\ (forall items,
        replies w = map DescribeStacks_page pages ++ DescribeStacks_last items :: rest ->
        stackGet format "" w
        = match StdoutStrFactory format (obj_stacks (items_of pages ++ items)) with
          | (line, None) => (Returns None, after w rest made (signals w) [line] [])
          | (_, Some err) => (Returns (Some err), after w rest made (signals w) [] [])
          end).
Proof.
  intros made. split.
  - intros err E. unfold stackGet. simpl. unfold bind, DescribeStacks.
    destruct (DescribeStacks_loop_run (Reply_error err) rest pages
                (S (List.length (replies w))) None [] w E
                (enough_fuel w pages DescribeStacks_page _ rest E)) as [_ H2].
    rewrite (H2 err eq_refl). reflexivity.
  - intros items E. unfold stackGet. simpl. unfold bind at 1. unfold DescribeStacks.
    destruct (DescribeStacks_loop_run (DescribeStacks_last items) rest pages
                (S (List.length (replies w))) None [] w E
                (enough_fuel w pages DescribeStacks_page _ rest E)) as [H1 _].
    rewrite (H1 items eq_refl). simpl. unfold utils_Print, bind. simpl.
    fold (tokens_of pages). fold made.
    destruct (StdoutStrFactory format (obj_stacks (items_of pages ++ items)))
      as [line [err|]]; simpl.
    + reflexivity.
    + unfold bind, Println, ret. now rewrite print_line_after.
Qed.

(** ** Deleting a stack, drift and resources *)

(** X16. With an empty stack name, [DetectStackDrift] and
    [DescribeStackResourceDrifts] fail with the missing-name error and send
    nothing, whatever the client.  [DeleteStack] and [GetStackResources]
    have no such check: with an empty name each still sends its request,
    carrying the empty name. *)
Theorem empty_name_guards (resourceIds status retainResc : list string) :
  DetectStackDrift "" resourceIds
  = (Returns (""%string, Some (errors_New "Missing stack name.")), [])
  /\ DescribeStackResourceDrifts "" status
     = (Returns ([], Some (errors_New "Missing stack name.")), [])
  /\ snd (DeleteStack "" retainResc)
     = [{| Delete_StackName := ""; Delete_RetainResources := retainResc |}]
  /\ snd (GetStackResources "") = [{| Resources_StackName := "" |}].
Proof.
  split; [reflexivity|]. split; [reflexivity|]. split.
  - unfold DeleteStack. simpl. now rewrite status_filter_field.
  - unfold GetStackResources.
    now destruct (Client_DescribeStackResources {| Resources_StackName := "" |}).
Qed.

(** X17. For a named stack [DetectStackDrift] sends exactly one request,
    with the name and the resource ids given.  It returns an id only with a
    nil error, and then the id is the one in the client's answer; with an
    error the id it returns is empty.  An answer without an error and
    without an id makes it panic. *)
Theorem DetectStackDrift_outcomes (stackName : string) (resourceIds : list string) :
  0 < strlen stackName ->
  let input :=
    {| Detect_StackName := stackName; Detect_LogicalResourceIds := resourceIds |} in
  snd (DetectStackDrift stackName resourceIds) = [input]
  /\ (forall id err,
        fst (DetectStackDrift stackName resourceIds) = Returns (id, Some err) ->
        id = ""%string /\ snd (Client_DetectStackDrift input) = Some err)
  /\ (forall id,
        fst (DetectStackDrift stackName resourceIds) = Returns (id, None) ->
        exists output,
          Client_DetectStackDrift input = (Some output, None)
          /\ StackDriftDetectionId output = Some id)
  /\ (forall output,
        Client_DetectStackDrift input = (Some output, None) ->
        StackDriftDetectionId output = None ->
        fst (DetectStackDrift stackName resourceIds) = Panics).
Proof.
  intros H input. unfold DetectStackDrift.
  assert (E : (strlen stackName =? 0) = false) by lia.
  rewrite E, status_filter_field. fold input.
  destruct (Client_DetectStackDrift input) as [[output|] [err|]]; simpl;
    try destruct (StackDriftDetectionId output) as [id0|] eqn:Ei;
    repeat split; try discriminate;
    try (intros ? ? X; inversion X; subst; split; reflexivity);
    try (intros ? X; inversion X; subst; eexists; split; [reflexivity|assumption]);
    try (intros ? X Y; inversion X; subst; congruence);
    try congruence.
Qed.

End Stack.

(** * Concrete runs *)

(** A body of 51200 bytes goes to the remote validation; one of 51201 bytes
    is rejected in place. *)
Lemma template_size_boundary_witness :
  (ValidateTemplate (template_of_size 51200) "" (world [] [])
   = Client.ValidateTemplate (body_input (template_of_size 51200)) (world [] []))
  /\ ValidateTemplate (template_of_size 51201) "" (world [] [])
     = (Returns (None, err_template_size), world [] []).
Proof.
  split.
  - destruct (template_size_boundary stamp_tag "demo" [] []
                (template_of_size 51200) "" (world [] [])) as [H _].
    apply H. vm_compute. reflexivity.
  - destruct (template_size_boundary stamp_tag "demo" [] []
                (template_of_size 51201) "" (world [] [])) as [_ H].
    apply H. vm_compute. discriminate.
Defined.

(** A small body given together with a URL: the body is validated. *)
Lemma template_source_witness :
  ValidateTemplate tiny_template template_url (world [] [])
  = Client.ValidateTemplate (body_input tiny_template) (world [] []).
Proof.
  destruct (template_source stamp_tag "demo" [] [] (world [] [])) as [_ H].
  destruct (H tiny_template template_url) as (_ & _ & _ & H4 & _).
  - vm_compute. reflexivity.
  - vm_compute. reflexivity.
  - apply H4. vm_compute. discriminate.
Defined.

(** The describe call fails: [Exist] returns false. *)
Lemma Exist_iff_described_witness :
  Exist "demo" (world [Reply_error err_throttling] [])
  = (Returns false,
     set_replies [] (log_request (describe_request "demo")
                       (world [Reply_error err_throttling] []))).
Proof.
  destruct (Exist_iff_described "demo" (world [Reply_error err_throttling] []))
    as (_ & _ & _ & H).
  apply (H err_throttling []).
  - vm_compute. reflexivity.
  - reflexivity.
Defined.

(** The describe call succeeds with no stack record: both panic. *)
Lemma DescribeStack_first_record_witness :
  fst (DescribeStack "demo" (world [Reply_DescribeStacks no_stacks] [])) = Panics
  /\ fst (Exist "demo" (world [Reply_DescribeStacks no_stacks] [])) = Panics.
Proof.
  destruct (DescribeStack_first_record "demo" (world [Reply_DescribeStacks no_stacks] [])
              no_stacks []) as [_ H].
  - vm_compute. reflexivity.
  - reflexivity.
  - destruct (H eq_refl) as [H1 H2]. rewrite H1, H2. split; reflexivity.
Defined.

(** Pages delivered latest first come back strictly ascending. *)
Lemma GetStackEvents_ascending_witness :
  exists events,
    fst (GetStackEvents (sorter := insertion_sorter) "demo" 0 world_descending)
    = Returns (events, None)
    /\ strictly_ascending events.
Proof.
  destruct (GetStackEvents_ascending (sorter := insertion_sorter) "demo" 0
              world_descending pages_descending [e10] [] eq_refl)
    as (events & H1 & _ & _ & H4).
  exists events. split; [exact H1|]. apply H4.
  repeat constructor; simpl; intuition discriminate.
Defined.

(** The counterexample to C7 as stated: on success the event aggregation
    does not return the pages' items in page order. *)
Lemma events_not_in_page_order :
  items_of pages_descending ++ [e10] = [e30; e20; e10]
  /\ fst (GetStackEvents (sorter := insertion_sorter) "demo" 0 world_descending)
     = Returns ([e10; e20; e30], None)
  /\ fst (GetStackEvents (sorter := insertion_sorter) "demo" 0 world_descending)
     <> Returns (items_of pages_descending ++ [e10], None).
Proof. repeat split. discriminate. Qed.

(** Pages of two, two and one summaries: five summaries in page order. *)
Lemma aggregation_results_witness :
  fst (ListStacks "" [] world_2_2_1)
  = Returns ([summary "a"; summary "b"; summary "c"; summary "d"; summary "e"], None).
Proof.
  destruct (aggregation_results (sorter := insertion_sorter) world_2_2_1 []) as [H _].
  destruct (H ""%string [] pages_2_2) as [_ H2].
  exact (H2 [summary "e"] eq_refl).
Defined.

(** A turn from instant 15 over the events at 10, 20 and 30 hands on 30. *)
Lemma watermark_never_regresses_witness :
  exists t' ret,
    fst (PollStackEvents_turn (sorter := insertion_sorter) Format_number
           "demo" StackWaiterTypeCreate 15 world_descending) = Returns (t', ret)
    /\ t' = 30 /\ 15 <= t'.
Proof.
  destruct (watermark_never_regresses (sorter := insertion_sorter) Format_number
              "demo" StackWaiterTypeCreate 15 world_descending)
    as (_ & batch & _ & _ & _ & H).
  exists 30, (Some None). split; [reflexivity|].
  split; [reflexivity|]. apply (H 30 (Some None) eq_refl).
Defined.

(** Two fetches, the second repeating the first: each event is printed
    once, in order. *)
Lemma no_event_printed_twice_witness :
  exists printed,
    shown (snd (PollStackEvents (sorter := insertion_sorter) Format_number
                  "demo" StackWaiterTypeCreate world_two_fetches))
    = printed
    /\ printed = [e200; e300] /\ NoDup printed /\ ascending printed.
Proof.
  destruct (no_event_printed_twice (sorter := insertion_sorter) Format_number
              "demo" StackWaiterTypeCreate world_two_fetches)
    as (printed & P1 & _ & P3 & P4).
  - repeat constructor; simpl; intuition discriminate.
  - exists printed. split; [exact P1|]. split; [|split; assumption].
    simpl in P1. rewrite <- P1. reflexivity.
Defined.

(** The counterexample to C9 as stated.  The events delivered have pairwise
    distinct instants (there is one event); one fetch lists it on two pages,
    and its line is printed twice. *)
Lemma duplicate_listing_printed_twice :
  (forall e1 e2,
     In e1 (delivered (replies world_duplicate)) ->
     In e2 (delivered (replies world_duplicate)) ->
     cf.Timestamp e1 = cf.Timestamp e2 -> e1 = e2)
  /\ shown (snd (PollStackEvents (sorter := insertion_sorter) Format_number
                   "demo" StackWaiterTypeCreate world_duplicate))
     = [e200; e200]
  /\ ~ NoDup (shown (snd (PollStackEvents (sorter := insertion_sorter) Format_number
                            "demo" StackWaiterTypeCreate world_duplicate))).
Proof.
  split; [|split].
  - simpl. intros e1 e2 [<-|[<-|[]]] [<-|[<-|[]]] _; reflexivity.
  - reflexivity.
  - intros N. change (NoDup [e200; e200]) in N.
    inversion N as [|? ? Hin _]; subst. apply Hin. now left.
Qed.

(** ** Further concrete runs *)

(** Three pages of stack summaries: three requests, the tokens chained. *)
Lemma ListStacks_request_chain_witness :
  requests (snd (ListStacks "" ["CREATE_COMPLETE"%string] world_2_2_1))
  = ListStacks_requests ["CREATE_COMPLETE"%string]
      [None; Some "t1"%string; Some "t2"%string].
Proof.
  rewrite (ListStacks_request_chain "" ["CREATE_COMPLETE"%string] world_2_2_1
             pages_2_2 (ListStacks_last [summary "e"]) [] eq_refl).
  - reflexivity.
  - left. now exists [summary "e"].
Defined.

(** Two pages of stacks, the second fetch failing: two requests. *)
Lemma DescribeStacks_request_chain_witness :
  requests (snd (DescribeStacks world_stacks_broken))
  = DescribeStacks_requests [None; Some "t1"%string].
Proof.
  rewrite (DescribeStacks_request_chain world_stacks_broken pages_stacks
             (Reply_error err_throttling) [] eq_refl).
  - reflexivity.
  - right. now exists err_throttling.
Defined.

(** Two pages of events: both requests name the stack. *)
Lemma GetStackEvents_request_chain_witness :
  requests (snd (GetStackEvents (sorter := insertion_sorter) "demo" 0 world_descending))
  = Events_requests "demo" [None; Some "t1"%string].
Proof.
  rewrite (GetStackEvents_request_chain (sorter := insertion_sorter) "demo" 0
             world_descending pages_descending (Events_last [e10]) [] eq_refl).
  - reflexivity.
  - left. now exists [e10].
Defined.

(** A create with a body: validated, then created with the capability of
    the validation and the stamped tags. *)
Lemma change_threads_validation_witness :
  CreateStack stamp_tag "demo" [] [] tiny_template "" world_create
  = (Returns (Some created, None),
     after world_create []
       [Call_ValidateTemplate (body_input tiny_template);
        Call_CreateStack
          (change_input "demo" [] [("managed-by", "cfctl")%string]
             ["CAPABILITY_IAM"%string] tiny_template "")]
       [] [] []).
Proof.
  destruct (change_threads_validation stamp_tag "demo" [] [] tiny_template ""
              world_create valid_iam (Reply_CreateStack created) []) as [H _].
  - left. vm_compute. reflexivity.
  - vm_compute. discriminate.
  - reflexivity.
  - exact (H created eq_refl).
Defined.

(** A create whose remote validation fails: one request. *)
Lemma change_stops_on_rejection_witness :
  CreateStack stamp_tag "demo" [] [] tiny_template ""
    (world [Reply_error err_throttling; Reply_CreateStack created] [])
  = (Returns (None, Some err_throttling),
     after (world [Reply_error err_throttling; Reply_CreateStack created] [])
       [Reply_CreateStack created]
       [Call_ValidateTemplate (body_input tiny_template)] [] [] []).
Proof.
  destruct (change_stops_on_rejection stamp_tag "demo" [] [] tiny_template ""
              (world [Reply_error err_throttling; Reply_CreateStack created] [])
              err_throttling [Reply_CreateStack created]) as [H _].
  - left. vm_compute. reflexivity.
  - vm_compute. discriminate.
  - reflexivity.
  - exact H.
Defined.

(** The waiter has finished before the first look at its channel: the two
    events of the fetch are printed, in order, and nil is returned. *)
Lemma final_batch_printed_before_return_witness :
  fst (PollStackEvents (sorter := insertion_sorter) Format_number
         "demo" StackWaiterTypeCreate world_final) = Returns None
  /\ shown (snd (PollStackEvents (sorter := insertion_sorter) Format_number
                   "demo" StackWaiterTypeCreate world_final)) = [e200; e300].
Proof.
  rewrite (final_batch_printed_before_return (sorter := insertion_sorter) Format_number
             "demo" StackWaiterTypeCreate world_final [] [e300; e200] [] None []
             eq_refl eq_refl).
  split; reflexivity.
Defined.

(** A delete wait over two fetches that find the stack gone. *)
Lemma delete_wait_tolerates_missing_stack_witness :
  fst (PollStackEvents (sorter := insertion_sorter) Format_number
         "demo" StackWaiterTypeDelete world_deleted) = Returns None.
Proof.
  rewrite (delete_wait_tolerates_missing_stack (sorter := insertion_sorter) Format_number
             "demo" world_deleted 1 [err_no_stack; err_no_stack] [] None []).
  - reflexivity.
  - repeat constructor.
  - reflexivity.
  - reflexivity.
  - reflexivity.
Defined.

(** The nil that the delete wait returns is the waiter's. *)
Lemma wait_result_provenance_witness :
  In (Some None) (signals world_deleted).
Proof.
  apply (wait_result_provenance (sorter := insertion_sorter) Format_number
           "demo" StackWaiterTypeDelete world_deleted None).
  - reflexivity.
  - reflexivity.
Defined.

(** Three objects in yaml, the second failing: one line, its error. *)
Lemma Print_stops_at_first_failure_witness :
  utils_Print marshal_values marshal_values show_value "yaml"
    [obj_string "a"; obj_error err_plain; obj_string "b"] (world [] [])
  = (Returns (Some err_plain), print_lines ["a"%string] (world [] [])).
Proof.
  exact (Print_stops_at_first_failure marshal_values marshal_values show_value "yaml"
           [obj_string "a"] [obj_string "b"] (obj_error err_plain) err_plain
           (world [] []) ltac:(repeat constructor) eq_refl).
Defined.

(** Two objects in json, both converting: two lines. *)
Lemma Print_all_or_nothing_witness :
  utils_Print marshal_values marshal_values show_value "json"
    [obj_string "a"; obj_string "b"] (world [] [])
  = (Returns None, print_lines ["a"%string; "b"%string] (world [] [])).
Proof.
  destruct (Print_all_or_nothing marshal_values marshal_values show_value "json"
              [obj_string "a"; obj_string "b"] (world [] [])) as [_ H].
  apply H.
  - discriminate.
  - repeat constructor.
Defined.

(** A misspelt format: the error value is printed, not marshaled. *)
Lemma plain_formats_never_fail_witness :
  utils_Print marshal_values marshal_values show_value "ymal"
    [obj_string "a"; obj_error err_plain] (world [] [])
  = (Returns None,
     print_lines ["a"%string; show_value (obj_error err_plain)] (world [] [])).
Proof.
  destruct (plain_formats_never_fail marshal_values marshal_values show_value "ymal"
              [obj_string "a"; obj_error err_plain] (world [] [])) as [H _].
  - reflexivity.
  - reflexivity.
  - discriminate.
  - exact H.
Defined.

(** The describe call is throttled: the stack is reported as not found. *)
Lemma stackGet_not_found_witness :
  fst (stackGet marshal_values marshal_values show_value "yaml" "demo"
         (world [Reply_error err_throttling] []))
  = Returns (Some (errors_New "Failed to find stack demo")).
Proof.
  rewrite (stackGet_not_found marshal_values marshal_values show_value "yaml" "demo"
             (world [Reply_error err_throttling] []) (Reply_error err_throttling) []).
  - reflexivity.
  - vm_compute. reflexivity.
  - reflexivity.
  - left. now exists err_throttling.
Defined.

(** Two describe calls with different answers: the second one is printed. *)
Lemma stackGet_describes_twice_witness :
  stdout (snd (stackGet marshal_values marshal_values show_value "yaml" "demo"
                 world_renamed))
  = ["demo-2"%string].
Proof.
  destruct (stackGet_describes_twice marshal_values marshal_values show_value
              "yaml" "demo" world_renamed
              {| cf.Stacks := [Some (stack_named "demo")];
                 cf.DescribeStacksOutput_NextToken := None |}
              (stack_named "demo") [] (described "demo-2") []) as [_ H].
  - vm_compute. reflexivity.
  - reflexivity.
  - reflexivity.
  - rewrite (H _ (Some (stack_named "demo-2")) [] eq_refl eq_refl). reflexivity.
Defined.

(** All stacks over two pages: one line; the second page failing: none. *)
Lemma stackGet_all_witness :
  stdout (snd (stackGet marshal_values marshal_values show_value "yaml" "" world_stacks))
  = ["a,b"%string]
  /\ stackGet marshal_values marshal_values show_value "yaml" "" world_stacks_broken
     = (Returns (Some err_throttling),
        after world_stacks_broken [] (DescribeStacks_requests [None; Some "t1"%string])
          [] [] []).
Proof.
  split.
  - destruct (stackGet_all marshal_values marshal_values show_value "yaml"
                world_stacks pages_stacks []) as [_ H].
    rewrite (H [Some (stack_named "b")] eq_refl). reflexivity.
  - destruct (stackGet_all marshal_values marshal_values show_value "yaml"
                world_stacks_broken pages_stacks []) as [H _].
    exact (H err_throttling eq_refl).
Defined.

(** A drift detection of a named stack: one request, the id of the answer. *)
Lemma DetectStackDrift_outcomes_witness :
  snd (DetectStackDrift detect_by_name "demo" ["Bucket"%string])
  = [{| Detect_StackName := "demo"; Detect_LogicalResourceIds := ["Bucket"%string] |}]
  /\ fst (DetectStackDrift detect_by_name "demo" ["Bucket"%string])
     = Returns ("drift-demo"%string, None).
Proof.
  destruct (DetectStackDrift_outcomes detect_by_name "demo" ["Bucket"%string])
    as [H _].
  - vm_compute. reflexivity.
  - split; [exact H|reflexivity].
Defined.
